(** * vh-board: a shallow embedding of the board controller and its repositories

    The development follows the TypeScript sources:
    - [lib/ticketsApi.ts]   ([Ticket], [fetchTickets]),
    - [lib/votesApi.ts]     ([Vote], [fetchVotes], [addVote], [removeVote]),
    - [lib/utils/idGenerator.ts] ([generateUniqueId], [getOrCreateVoterId]),
    - [routes/+page.svelte] (the board controller: view model, vote toggle,
      inline editing, add / remove, render-time sort),
    - [lib/stores/ticketStore.ts] (the store module: the same ticket actions
      over Svelte stores).

    Handlers are [async] functions over module-level variables.  They are
    embedded as state transformers over a [World] that holds the view model,
    the hosted store, the browser profile, the outcomes the network is going
    to deliver and the log of requests sent so far.  A handler runs to
    completion: no other handler is interleaved at its [await] points. *)

From stdpp Require Import gmap strings list sorting pretty.
From Stdlib Require Import ZArith NArith Ascii.

Local Open Scope Z_scope.

(** ** JavaScript values *)

(** An [Error] object, as far as the code inspects it: its [message]. *)
Record Exn := mkExn { message : string }.

#[global] Instance Exn_eq_dec : EqDecision Exn.
Proof. solve_decision. Defined.

(** Reading a property of [undefined] ([undefined.map], [undefined.filter],
    iterating [null]). *)
Definition TypeError : Exn := mkExn "Cannot read properties of undefined".

(** The [TypeError] of calling a property that is not a function:
    [x.push(...)] where [x] is not an array, [data.forEach(...)] where [data]
    is a plain mapping.  The wording of the message is the engine's; it is
    given as V8 words it for the source as written. *)
Definition not_a_function (callee : string) : Exn :=
  mkExn (callee +:+ " is not a function").

(** The [TypeError] of spreading a value that cannot be iterated:
    [[...x]]. *)
Definition not_iterable (what : string) : Exn :=
  mkExn (what +:+ " is not iterable").

(** The property names an object literal inherits from [Object.prototype].
    On an object without an own property of that name, [obj[name]] is the
    inherited value: a function, or the prototype itself for [__proto__].
    It is truthy and it is not an array. *)
Definition inherited_keys : list string :=
  ["constructor"; "hasOwnProperty"; "isPrototypeOf"; "propertyIsEnumerable";
   "toLocaleString"; "toString"; "valueOf"; "__proto__";
   "__defineGetter__"; "__defineSetter__"; "__lookupGetter__"; "__lookupSetter__"].

Definition inherited (key : string) : bool := bool_decide (key ∈ inherited_keys).

(** [!s] is false exactly for the non-empty strings. *)
Definition truthy (s : string) : bool := negb (String.eqb s "").

(** [!x] for [x : string | null]. *)
Definition truthy_opt (x : option string) : bool :=
  match x with Some s => truthy s | None => false end.

(** [x || d] on strings. *)
Definition or_else (x : option string) (d : string) : string :=
  match x with Some s => if truthy s then s else d | None => d end.

(** ** Environment values (lib/supabaseClient.ts) *)

(** The double quote character. *)
Definition dquote : ascii := "034"%char.

(** The global [replace] by the empty string that cleans both environment
    values.  Its pattern has three alternatives, tried in this order at each
    position from the left: a double quote at the very start, a double quote
    at the very end, a slash followed by a double quote.  [at_start] tells
    whether the scan is at position 0. *)
Fixpoint strip_from (at_start : bool) (s : string) : string :=
  match s with
  | EmptyString => EmptyString
  | String c rest =>
      if Ascii.eqb c dquote && at_start then strip_from false rest
      else if Ascii.eqb c dquote && String.eqb rest "" then strip_from false rest
      else
        match rest with
        | String c' rest' =>
            if Ascii.eqb c "/" && Ascii.eqb c' dquote then strip_from false rest'
            else String c (strip_from false rest)
        | EmptyString => String c (strip_from false rest)
        end
  end.

Definition stripQuotes (s : string) : string := strip_from true s.

(** [value?.replace(...)]: an undefined variable stays undefined. *)
Definition cleanEnv (value : option string) : option string :=
  stripQuotes <$> value.

(** [if (supabaseUrl && supabaseAnonKey)]: the real client is created;
    otherwise the placeholder client is used. *)
Definition clientConfigured (url key : option string) : bool :=
  truthy_opt (cleanEnv url) && truthy_opt (cleanEnv key).

(** ** Data model (lib/ticketsApi.ts, lib/votesApi.ts) *)

Module Ticket.

Record t := mk {
  id : string;
  title : string;
  column : string;
  order : Z;
  rowSpan : option Z;
  colSpan : option Z;
  content : option string
}.

#[global] Instance eq_dec : EqDecision t.
Proof. solve_decision. Defined.

(** [{ ...ticket, title: newTitle, content: newContent }] *)
Definition with_text (newTitle : string) (newContent : option string) (x : t) : t :=
  mk (id x) newTitle (column x) (order x) (rowSpan x) (colSpan x) newContent.

End Ticket.

Module Vote.

Record t := mk {
  id : string;
  ticket_id : string;
  voter_id : string
}.

#[global] Instance eq_dec : EqDecision t.
Proof. solve_decision. Defined.

End Vote.

(** The object passed to [insert] by the add action: the server assigns
    the [id]. *)
Record NewTicket := mkNewTicket {
  new_title : string;
  new_content : string;
  new_column : string;
  new_order : Z
}.

#[global] Instance NewTicket_eq_dec : EqDecision NewTicket.
Proof. solve_decision. Defined.

(** ** Ordering by a comparator

    [a.sort(cmp)] of JavaScript, and the ordered read of the hosted store:
    [x] comes before [y] only if [cmp x y <= 0].  For a consistent comparator
    the stable ordering is the one insertion from the right computes. *)

Section ArraySort.
Context {A : Type} (cmp : A → A → Z).

Fixpoint sort_insert (x : A) (l : list A) : list A :=
  match l with
  | [] => [x]
  | y :: l' => if cmp x y <=? 0 then x :: l else y :: sort_insert x l'
  end.

Fixpoint sort_by (l : list A) : list A :=
  match l with
  | [] => []
  | x :: l' => sort_insert x (sort_by l')
  end.

End ArraySort.

(** ** crypto.randomUUID

    The textual form of a version 4 UUID drawn from [n]: 8-4-4-4-12
    hexadecimal digits, version nibble 4, variant bits 10. *)

Definition hex_digit (n : N) : ascii :=
  match n with
  | 0 => "0" | 1 => "1" | 2 => "2" | 3 => "3" | 4 => "4" | 5 => "5"
  | 6 => "6" | 7 => "7" | 8 => "8" | 9 => "9" | 10 => "a" | 11 => "b"
  | 12 => "c" | 13 => "d" | 14 => "e" | _ => "f"
  end%N%char.

(** The [k] low hexadecimal digits of [n], most significant first, in front
    of [rest]. *)
Fixpoint hex (k : nat) (n : N) (rest : string) : string :=
  match k with
  | O => rest
  | S k' => hex k' (n / 16)%N (String (hex_digit (n mod 16)%N) rest)
  end.

Definition uuid_string (n : N) : string :=
  hex 8 (n / 2 ^ 96)%N
    (String "-" (hex 4 (n / 2 ^ 80)%N
      (String "-" (hex 4 (16384 + (n / 2 ^ 64) mod 4096)%N
        (String "-" (hex 4 (32768 + (n / 2 ^ 48) mod 16384)%N
          (String "-" (hex 12 n "")))))))).

(** ** The world a handler runs in *)

(** The view model: the module-level [let] variables of the page. *)
Record Model := mkModel {
  ticketsByColumn : gmap string (list Ticket.t);
  loading : bool;
  error : option string;
  votes : list Vote.t;
  editingTicketId : option string;
  editingTitle : string;
  editingContent : option string
}.

Definition set_ticketsByColumn (v : gmap string (list Ticket.t)) (m : Model) : Model :=
  mkModel v (loading m) (error m) (votes m)
          (editingTicketId m) (editingTitle m) (editingContent m).

Definition set_loading (v : bool) (m : Model) : Model :=
  mkModel (ticketsByColumn m) v (error m) (votes m)
          (editingTicketId m) (editingTitle m) (editingContent m).

Definition set_error (v : option string) (m : Model) : Model :=
  mkModel (ticketsByColumn m) (loading m) v (votes m)
          (editingTicketId m) (editingTitle m) (editingContent m).

Definition set_votes (v : list Vote.t) (m : Model) : Model :=
  mkModel (ticketsByColumn m) (loading m) (error m) v
          (editingTicketId m) (editingTitle m) (editingContent m).

Definition set_editingTicketId (v : option string) (m : Model) : Model :=
  mkModel (ticketsByColumn m) (loading m) (error m) (votes m)
          v (editingTitle m) (editingContent m).

Definition set_editingTitle (v : string) (m : Model) : Model :=
  mkModel (ticketsByColumn m) (loading m) (error m) (votes m)
          (editingTicketId m) v (editingContent m).

Definition set_editingContent (v : option string) (m : Model) : Model :=
  mkModel (ticketsByColumn m) (loading m) (error m) (votes m)
          (editingTicketId m) (editingTitle m) v.

(** The page right after the script block has run. *)
Definition initial_model : Model :=
  mkModel ∅ true None [] None "" (Some "").

(** The hosted store: the two collections, and the numbers from which the
    ids of the next inserted rows are drawn. *)
Record Backend := mkBackend {
  tickets_table : list Ticket.t;
  votes_table : list Vote.t;
  id_seeds : list N
}.

(** A request sent to the hosted store. *)
Inductive Request :=
| SelectTickets
| InsertTicket (p : NewTicket)
| InsertDraft (title content column created_at : string)
| UpdateTicket (id title : string) (content : option string)
| DeleteTicket (id : string)
| SelectVotes
| InsertVote (ticket_id voter_id : string)
| DeleteVotes (ticket_id voter_id : string).

#[global] Instance Request_eq_dec : EqDecision Request.
Proof. solve_decision. Defined.

(** [network]: what the next requests are going to meet, in order; [None]
    lets the request through, [Some msg] makes it fail with that message.
    Beyond the end of the list every request goes through. *)
Record World := mkWorld {
  view : Model;
  db : Backend;
  window_defined : bool;
  localStorage : gmap string string;
  entropy : list N;
  network : list (option string);
  log : list Request
}.

Definition set_view (v : Model) (w : World) : World :=
  mkWorld v (db w) (window_defined w) (localStorage w) (entropy w) (network w) (log w).

Definition set_localStorage (v : gmap string string) (w : World) : World :=
  mkWorld (view w) (db w) (window_defined w) v (entropy w) (network w) (log w).

Definition set_entropy (v : list N) (w : World) : World :=
  mkWorld (view w) (db w) (window_defined w) (localStorage w) v (network w) (log w).

(** ** Handlers as state transformers *)

Inductive Completion (A : Type) :=
| Returned (a : A)
| Thrown (e : Exn).
Arguments Returned {A} a.
Arguments Thrown {A} e.

Definition Task (A : Type) : Type := World → Completion A * World.

Definition ret {A} (a : A) : Task A := λ w, (Returned a, w).

Definition throw {A} (e : Exn) : Task A := λ w, (Thrown e, w).

Definition bind {A B} (c : Task A) (k : A → Task B) : Task B :=
  λ w, match c w with
       | (Returned a, w') => k a w'
       | (Thrown e, w') => (Thrown e, w')
       end.

(** [try { body } catch (e) { handler }] *)
Definition try_catch {A} (body : Task A) (handler : Exn → Task A) : Task A :=
  λ w, match body w with
       | (Returned a, w') => (Returned a, w')
       | (Thrown e, w') => handler e w'
       end.

Notation "x <- c ;; k" := (bind c (λ x, k))
  (at level 20, c at level 99, k at level 200, only parsing).
Notation "c ;; k" := (bind c (λ _, k))
  (at level 100, k at level 200, only parsing, right associativity).

Definition read : Task Model := λ w, (Returned (view w), w).

Definition update (f : Model → Model) : Task unit :=
  λ w, (Returned tt, set_view (f (view w)) w).

(** [try { body } catch (e) { handler } finally { fin }] *)
Definition try_catch_finally {A} (body : Task A) (handler : Exn → Task A)
    (fin : Task unit) : Task A :=
  λ w, match try_catch body handler w with
       | (r, w') => match fin w' with
                    | (Returned _, w'') => (r, w'')
                    | (Thrown e, w'') => (Thrown e, w'')
                    end
       end.

(** The state a handler leaves behind. *)
Definition after {A} (c : Task A) (w : World) : World := (c w).2.

(** ** The hosted store and its client (lib/supabaseClient.ts)

    The client is configured (both environment values present).  Every call
    answers with a [{ data, error }] pair and never throws. *)

Module Supabase.

Record Response (A : Type) := mkResponse {
  data : option A;
  error : option Exn
}.
Arguments mkResponse {A} data error.
Arguments data {A} r.
Arguments error {A} r.

(** Sends [r]: the request is logged and consumes one entry of [network];
    when it goes through, [serve] is what the store does with it. *)
Definition request {A} (r : Request) (serve : Backend → option A * Backend)
    : Task (Response A) :=
  λ w,
    match network w with
    | Some msg :: rest =>
        (Returned (mkResponse None (Some (mkExn msg))),
         mkWorld (view w) (db w) (window_defined w) (localStorage w)
                 (entropy w) rest (log w ++ [r]))
    | _ =>
        let '(d, b) := serve (db w) in
        (Returned (mkResponse d None),
         mkWorld (view w) b (window_defined w) (localStorage w)
                 (entropy w) (tail (network w)) (log w ++ [r]))
    end.

Definition fresh_id (b : Backend) : string := uuid_string (hd 0%N (id_seeds b)).

(** [from('tickets').select('*').order('order', { ascending: true })] *)
Definition select_tickets_ordered : Task (Response (list Ticket.t)) :=
  request SelectTickets
    (λ b, (Some (sort_by (λ x y, Ticket.order x - Ticket.order y) (tickets_table b)), b)).


(** [from('tickets').insert([{ title, content, column, created_at }]).select()]:
    an insert that names no [order].  [order_default] is what the table
    gives to that field then. *)
Definition insert_draft_select (order_default : Z)
    (title content column created_at : string) : Task (Response (list Ticket.t)) :=
  request (InsertDraft title content column created_at)
    (λ b, let row := Ticket.mk (fresh_id b) title column order_default None None
                               (Some content) in
          (Some [row],
           mkBackend (tickets_table b ++ [row]) (votes_table b) (tail (id_seeds b)))).

(** [from('tickets').update({ title, content }).eq('id', id)] *)
Definition update_ticket (id title : string) (content : option string)
    : Task (Response unit) :=
  request (UpdateTicket id title content)
    (λ b, (None,
           mkBackend
             (map (λ r, if decide (Ticket.id r = id)
                        then Ticket.with_text title content r else r)
                  (tickets_table b))
             (votes_table b) (id_seeds b))).

(** [from('tickets').delete().eq('id', id)] *)
Definition delete_ticket (id : string) : Task (Response unit) :=
  request (DeleteTicket id)
    (λ b, (None,
           mkBackend (filter (λ r, Ticket.id r ≠ id) (tickets_table b))
                     (votes_table b) (id_seeds b))).

(** [from('votes').select('*')] *)
Definition select_votes : Task (Response (list Vote.t)) :=
  request SelectVotes (λ b, (Some (votes_table b), b)).

(** [from('votes').insert([{ ticket_id, voter_id }])] *)
Definition insert_vote (ticket_id voter_id : string) : Task (Response unit) :=
  request (InsertVote ticket_id voter_id)
    (λ b, (None,
           mkBackend (tickets_table b)
                     (votes_table b ++ [Vote.mk (fresh_id b) ticket_id voter_id])
                     (tail (id_seeds b)))).

(** [from('votes').delete().eq('ticket_id', ticket_id).eq('voter_id', voter_id)] *)
Definition delete_votes (ticket_id voter_id : string) : Task (Response unit) :=
  request (DeleteVotes ticket_id voter_id)
    (λ b, (None,
           mkBackend (tickets_table b)
                     (filter (λ v, ¬ (Vote.ticket_id v = ticket_id
                                      ∧ Vote.voter_id v = voter_id))
                             (votes_table b))
                     (id_seeds b))).

End Supabase.

(** ** Ticket repository (lib/ticketsApi.ts) *)

(** One turn of the grouping loop:
    [if (!grouped[ticket.column]) grouped[ticket.column] = [];
     grouped[ticket.column].push(ticket)]
    [grouped] is an object literal used as a mapping, held here by its own
    properties.  For a column named like an inherited property and not yet an
    own one, [grouped[ticket.column]] is the inherited value: no bucket is
    created and [push] is not a function ([None]). *)
Definition group_push (grouped : gmap string (list Ticket.t)) (ticket : Ticket.t)
    : option (gmap string (list Ticket.t)) :=
  let grouped' :=
    match grouped !! Ticket.column ticket with
    | Some _ => grouped
    | None =>
        if inherited (Ticket.column ticket) then grouped
        else <[Ticket.column ticket := []]> grouped
    end in
  match grouped' !! Ticket.column ticket with
  | Some bucket => Some (<[Ticket.column ticket := bucket ++ [ticket]]> grouped')
  | None => None
  end.

(** [for (const ticket of data) { ... }], left at the first turn that
    throws. *)
Fixpoint group_loop (grouped : gmap string (list Ticket.t)) (data : list Ticket.t)
    : option (gmap string (list Ticket.t)) :=
  match data with
  | [] => Some grouped
  | ticket :: rest =>
      match group_push grouped ticket with
      | Some grouped' => group_loop grouped' rest
      | None => None
      end
  end.

(** [const grouped = {}] and the loop. *)
Definition groupByColumn (data : list Ticket.t) : option (gmap string (list Ticket.t)) :=
  group_loop ∅ data.

Definition fetchTickets : Task (gmap string (list Ticket.t)) :=
  r <- Supabase.select_tickets_ordered ;;
  match Supabase.error r with
  | Some e => throw e
  | None =>
      match Supabase.data r with
      | Some data =>
          match groupByColumn data with
          | Some grouped => ret grouped
          | None => throw (not_a_function "grouped[ticket.column].push")
          end
      | None => throw TypeError
      end
  end.

(** ** Vote repository (lib/votesApi.ts) *)

(** [return data as Vote[]]: [None] is a [null] let through by the cast. *)
Definition fetchVotes : Task (option (list Vote.t)) :=
  r <- Supabase.select_votes ;;
  match Supabase.error r with
  | Some e => throw e
  | None => ret (Supabase.data r)
  end.

Definition addVote (ticket_id voter_id : string) : Task unit :=
  r <- Supabase.insert_vote ticket_id voter_id ;;
  match Supabase.error r with
  | Some e => throw e
  | None => ret tt
  end.

Definition removeVote (ticket_id voter_id : string) : Task unit :=
  r <- Supabase.delete_votes ticket_id voter_id ;;
  match Supabase.error r with
  | Some e => throw e
  | None => ret tt
  end.

(** ** Identity provider (lib/utils/idGenerator.ts) *)

Definition randomUUID : Task string :=
  λ w, (Returned (uuid_string (hd 0%N (entropy w))), set_entropy (tail (entropy w)) w).

Definition getItem (key : string) : Task (option string) :=
  λ w, (Returned (localStorage w !! key), w).

Definition setItem (key value : string) : Task unit :=
  λ w, (Returned tt, set_localStorage (<[key := value]> (localStorage w)) w).

Definition generateUniqueId : Task string := randomUUID.

Definition getOrCreateVoterId : Task string :=
  id <- getItem "voter_id" ;;
  if truthy_opt id then ret (default "" id)
  else
    id <- generateUniqueId ;;
    setItem "voter_id" id ;;
    ret id.

(** ** Board controller (routes/+page.svelte) *)

(** [e.message || fallback] *)
Definition message_or (e : Exn) (fallback : string) : string :=
  or_else (Some (message e)) fallback.

Definition getCurrentVoterId : Task string :=
  λ w,
    if window_defined w then
      (id <- getItem "voter_id" ;;
       if truthy_opt id then ret (default "" id)
       else
         id <- randomUUID ;;
         setItem "voter_id" id ;;
         ret id) w
    else ret "ssr-placeholder" w.

Definition getVoteCount (m : Model) (ticket : Ticket.t) : Z :=
  Z.of_nat (length (filter (λ v, Vote.ticket_id v = Ticket.id ticket) (votes m))).

Definition hasVoted (ticket : Ticket.t) : Task bool :=
  voterId <- getCurrentVoterId ;;
  m <- read ;;
  ret (existsb (λ v, bool_decide (Vote.ticket_id v = Ticket.id ticket
                                  ∧ Vote.voter_id v = voterId))
               (votes m)).

Definition loadVotes : Task unit :=
  try_catch
    (newVotes <- fetchVotes ;;
     match newVotes with
     | Some l => update (set_votes l)
     | None => throw TypeError
     end)
    (λ e, update (set_error (Some (message_or e "Failed to load votes.")))).

Definition toggleVote (ticket : Ticket.t) : Task unit :=
  voterId <- getCurrentVoterId ;;
  voted <- hasVoted ticket ;;
  if voted then
    try_catch
      (removeVote (Ticket.id ticket) voterId ;; loadVotes)
      (λ e, update (set_error (Some (message_or e "Failed to remove vote."))))
  else
    try_catch
      (addVote (Ticket.id ticket) voterId ;; loadVotes)
      (λ e, update (set_error (Some (message_or e "Failed to add vote.")))).

Definition refreshTickets : Task unit :=
  update (set_loading true) ;;
  try_catch_finally
    (grouped <- fetchTickets ;; update (set_ticketsByColumn grouped))
    (λ e, update (set_error (Some (message_or e "Failed to load tickets."))))
    (update (set_loading false)).



Definition startEdit (ticket : Ticket.t) (m : Model) : Model :=
  if decide (editingTicketId m = Some (Ticket.id ticket)) then m
  else
    set_editingContent (Some (or_else (Ticket.content ticket) ""))
      (set_editingTitle (Ticket.title ticket)
        (set_editingTicketId (Some (Ticket.id ticket)) m)).

(** The first statement of the changed branch of [saveEdit]:
    [ticketsByColumn[ticket.column] = ticketsByColumn[ticket.column].map(...)] *)
Definition optimisticUpdate (ticket updatedTicket : Ticket.t) : Task unit :=
  m <- read ;;
  match ticketsByColumn m !! Ticket.column ticket with
  | None => throw TypeError
  | Some bucket =>
      update (set_ticketsByColumn
        (<[Ticket.column ticket :=
             map (λ t, if decide (Ticket.id t = Ticket.id ticket)
                       then updatedTicket else t) bucket]>
           (ticketsByColumn m)))
  end.

Definition saveEdit (ticket : Ticket.t) : Task unit :=
  m <- read ;;
  if negb (truthy_opt (editingTicketId m)) then ret tt
  else if decide (editingTitle m ≠ Ticket.title ticket
                  ∨ editingContent m ≠ Some (or_else (Ticket.content ticket) ""))
  then
    let updatedTicket := Ticket.with_text (editingTitle m) (editingContent m) ticket in
    optimisticUpdate ticket updatedTicket ;;
    update (set_editingTicketId None) ;;
    r <- Supabase.update_ticket (Ticket.id ticket) (editingTitle m) (editingContent m) ;;
    match Supabase.error r with
    | Some updateError =>
        update (set_error (Some (message updateError))) ;;
        refreshTickets
    | None => ret tt
    end
  else update (set_editingTicketId None).

Definition handleEditKeydown (key : string) (shiftKey : bool) (ticket : Ticket.t)
    : Task unit :=
  if String.eqb key "Enter" && negb shiftKey then saveEdit ticket
  else if String.eqb key "Escape" then update (set_editingTicketId None)
  else ret tt.

(** The first statement of [removeTicket]:
    [ticketsByColumn[ticket.column] = ticketsByColumn[ticket.column].filter(...)] *)
Definition optimisticRemove (ticket : Ticket.t) : Task unit :=
  m <- read ;;
  match ticketsByColumn m !! Ticket.column ticket with
  | None => throw TypeError
  | Some bucket =>
      update (set_ticketsByColumn
        (<[Ticket.column ticket :=
             filter (λ t, Ticket.id t ≠ Ticket.id ticket) bucket]>
           (ticketsByColumn m)))
  end.

Definition removeTicket (ticket : Ticket.t) : Task unit :=
  optimisticRemove ticket ;;
  r <- Supabase.delete_ticket (Ticket.id ticket) ;;
  match Supabase.error r with
  | Some deleteError =>
      update (set_error (Some (message deleteError))) ;;
      refreshTickets
  | None => ret tt
  end.

(** The comparator of the [#each] block: [getVoteCount(b) - getVoteCount(a)]. *)
Definition byVotes (m : Model) (a b : Ticket.t) : Z :=
  getVoteCount m b - getVoteCount m a.

(** The cards of one column as the template lists them:
    [ticketsByColumn[column.title].sort(...)] under the [?.length] guard.
    [sort] reorders the bucket in place and returns it. *)
Definition renderColumn (columnTitle : string) (m : Model) : list Ticket.t * Model :=
  match ticketsByColumn m !! columnTitle with
  | Some (first :: others) =>
      let sorted := sort_by (byVotes m) (first :: others) in
      (sorted, set_ticketsByColumn (<[columnTitle := sorted]> (ticketsByColumn m)) m)
  | _ => ([], m)
  end.

(** [onMount]: tickets, then votes.  (The change feed registered afterwards
    calls [loadVotes] on every event.) *)
Definition onMount : Task unit :=
  refreshTickets ;; loadVotes.

(** The template's [#each] over one column, as a handler: it returns the
    cards in display order. *)
Definition render (columnTitle : string) : Task (list Ticket.t) :=
  λ w, let '(shown, m) := renderColumn columnTitle (view w) in
       (Returned shown, set_view m w).

(** The template shows the edit form of a card when
    [editingTicketId === ticket.id]. *)
Definition isEditing (m : Model) (ticket : Ticket.t) : Prop :=
  editingTicketId m = Some (Ticket.id ticket).

#[global] Instance isEditing_dec m ticket : Decision (isEditing m ticket).
Proof. unfold isEditing. apply _. Defined.

(** [handleTicketEditBlur]: [relatedTarget] and [currentTarget] are the
    event's elements, [contains] the DOM containment test.  Focus moving
    inside the edit wrap does nothing; otherwise the edit is saved. *)
Definition handleTicketEditBlur {Node : Type} (contains : Node → Node → bool)
    (relatedTarget currentTarget : option Node) (ticket : Ticket.t) : Task unit :=
  match relatedTarget, currentTarget with
  | Some related, Some current =>
      if contains current related then ret tt else saveEdit ticket
  | _, _ => saveEdit ticket
  end.

(** ** The store module (lib/stores/ticketStore.ts)

    The ticket actions once more, over Svelte stores instead of the page's
    variables.  The module is plain JavaScript: its rows are untyped
    objects. *)

Module TicketStore.

(** A row as the module holds it.  The rows it builds itself carry
    [created_at] and no [order]. *)
Record Row := mkRow {
  id : string;
  title : string;
  content : option string;
  column : string;
  order : option Z;
  created_at : option string
}.

#[global] Instance Row_eq_dec : EqDecision Row.
Proof. solve_decision. Defined.

(** [{ ...t, ...updates }] for [updates = { title, content }] *)
Definition with_updates (newTitle newContent : string) (t : Row) : Row :=
  mkRow (id t) newTitle (Some newContent) (column t) (order t) (created_at t).

(** The writable stores of the module. *)
Record Cells := mkCells {
  tickets : list Row;
  ticketsByColumn : gmap string (list Row);
  loading : bool;
  error : option string;
  editingTicketId : option string;
  editingTitle : string;
  editingContent : string
}.

Definition set_tickets (v : list Row) (c : Cells) : Cells :=
  mkCells v (ticketsByColumn c) (loading c) (error c)
          (editingTicketId c) (editingTitle c) (editingContent c).

Definition set_ticketsByColumn (v : gmap string (list Row)) (c : Cells) : Cells :=
  mkCells (tickets c) v (loading c) (error c)
          (editingTicketId c) (editingTitle c) (editingContent c).

Definition set_loading (v : bool) (c : Cells) : Cells :=
  mkCells (tickets c) (ticketsByColumn c) v (error c)
          (editingTicketId c) (editingTitle c) (editingContent c).

Definition set_error (v : option string) (c : Cells) : Cells :=
  mkCells (tickets c) (ticketsByColumn c) (loading c) v
          (editingTicketId c) (editingTitle c) (editingContent c).

Definition set_editingTicketId (v : option string) (c : Cells) : Cells :=
  mkCells (tickets c) (ticketsByColumn c) (loading c) (error c)
          v (editingTitle c) (editingContent c).

Definition set_editingTitle (v : string) (c : Cells) : Cells :=
  mkCells (tickets c) (ticketsByColumn c) (loading c) (error c)
          (editingTicketId c) v (editingContent c).

Definition set_editingContent (v : string) (c : Cells) : Cells :=
  mkCells (tickets c) (ticketsByColumn c) (loading c) (error c)
          (editingTicketId c) (editingTitle c) v.

(** The stores as the module creates them. *)
Definition initial_cells : Cells := mkCells [] ∅ true None None "" "".

(** One reading of the clock: what [Date.now()] and what
    [new Date().toISOString()] give for it. *)
Record Instant := mkInstant { millis : Z; iso : string }.

Definition epoch : Instant := mkInstant 0 "1970-01-01T00:00:00.000Z".

(** The module runs in the page's browser, against the same hosted store:
    [outside] is that world, of which the module uses the store, the network
    and the log.  [clock] holds the readings the next calls are going to
    get. *)
Record Store := mkStore {
  cells : Cells;
  outside : World;
  clock : list Instant
}.

Definition set_cells (v : Cells) (s : Store) : Store :=
  mkStore v (outside s) (clock s).

Definition set_outside (v : World) (s : Store) : Store :=
  mkStore (cells s) v (clock s).

Definition set_clock (v : list Instant) (s : Store) : Store :=
  mkStore (cells s) (outside s) v.

(** The module's functions as state transformers. *)
Definition Action (A : Type) : Type := Store → Completion A * Store.

Definition pure {A} (a : A) : Action A := λ s, (Returned a, s).

Definition fail {A} (e : Exn) : Action A := λ s, (Thrown e, s).

Definition and_then {A B} (c : Action A) (k : A → Action B) : Action B :=
  λ s, match c s with
       | (Returned a, s') => k a s'
       | (Thrown e, s') => (Thrown e, s')
       end.

Declare Scope action_scope.
Notation "x <- c ;; k" := (and_then c (λ x, k))
  (at level 20, c at level 99, k at level 200, only parsing) : action_scope.
Notation "c ;; k" := (and_then c (λ _, k))
  (at level 100, k at level 200, only parsing, right associativity) : action_scope.
Local Open Scope action_scope.

(** [try { body } catch (e) { handler }] *)
Definition attempt {A} (body : Action A) (handler : Exn → Action A) : Action A :=
  λ s, match body s with
       | (Returned a, s') => (Returned a, s')
       | (Thrown e, s') => handler e s'
       end.

(** [try { body } catch (e) { handler } finally { fin }] *)
Definition attempt_finally {A} (body : Action A) (handler : Exn → Action A)
    (fin : Action unit) : Action A :=
  λ s, match attempt body handler s with
       | (r, s') => match fin s' with
                    | (Returned _, s'') => (r, s'')
                    | (Thrown e, s'') => (Thrown e, s'')
                    end
       end.

(** A call into the repositories or the client. *)
Definition lift {A} (t : Task A) : Action A :=
  λ s, let '(r, w) := t (outside s) in (r, set_outside w s).

(** [get(store)] of all stores at once; [store.set], [store.update]. *)
Definition get : Action Cells := λ s, (Returned (cells s), s).

Definition modify (f : Cells → Cells) : Action unit :=
  λ s, (Returned tt, set_cells (f (cells s)) s).

(** The next reading of the clock. *)
Definition now : Action Instant :=
  λ s, (Returned (hd epoch (clock s)), set_clock (tail (clock s)) s).

(** One turn of the grouping in [updateTicket]:
    [updatedByColumn[columnName] = updatedByColumn[columnName] || [];
     updatedByColumn[columnName].push(ticket)]
    For a column named like an inherited property and not yet an own one,
    the inherited value is kept and [push] is not a function ([None]). *)
Definition regroup_push (byColumn : gmap string (list Row)) (ticket : Row)
    : option (gmap string (list Row)) :=
  match byColumn !! column ticket with
  | Some bucket => Some (<[column ticket := bucket ++ [ticket]]> byColumn)
  | None =>
      if inherited (column ticket) then None
      else Some (<[column ticket := [ticket]]> byColumn)
  end.

(** [const updatedByColumn = {}; updatedTickets.forEach(...)] *)
Fixpoint regroup_loop (byColumn : gmap string (list Row)) (rows : list Row)
    : option (gmap string (list Row)) :=
  match rows with
  | [] => Some byColumn
  | ticket :: rest =>
      match regroup_push byColumn ticket with
      | Some byColumn' => regroup_loop byColumn' rest
      | None => None
      end
  end.

Definition regroup (rows : list Row) : option (gmap string (list Row)) :=
  regroup_loop ∅ rows.

(** [startEdit]: as on the page. *)
Definition startEdit (ticket : Row) (c : Cells) : Cells :=
  if decide (editingTicketId c = Some (id ticket)) then c
  else
    set_editingContent (or_else (content ticket) "")
      (set_editingTitle (title ticket)
        (set_editingTicketId (Some (id ticket)) c)).

Definition cancelEdit (c : Cells) : Cells := set_editingTicketId None c.

Section Runtime.

(** [e instanceof Error] for a caught value: true of the errors the
    runtime throws itself; for the error objects of the client library it
    is the library's choice. *)
Context (instanceofError : Exn → bool).

(** What an insert leaves in [order] when it names none. *)
Context (order_default : Z).

(** [(e instanceof Error) ? e.message : fallback] *)
Definition caught (e : Exn) (fallback : string) : string :=
  if instanceofError e then message e else fallback.

(** [data] is the mapping [fetchTickets] returns, not an array: whether it
    has no property [forEach] or a bucket of that name, [data.forEach(...)]
    throws, and the two [set] calls that follow are not reached. *)
Definition refreshTickets : Action unit :=
  attempt_finally
    (modify (set_loading true) ;;
     data <- lift fetchTickets ;;
     fail (not_a_function "data.forEach"))
    (λ e, modify (set_error (Some (caught e "Failed to load tickets."))))
    (modify (set_loading false)).

(** [addTicket(columnTitle, title = 'New ticket', content = '')]: [None]
    is an argument left out. *)
Definition addTicket (columnTitle : string) (title content : option string)
    : Action unit :=
  let title := default "New ticket" title in
  let content := default "" content in
  attempt
    (created <- now ;;
     c <- get ;;
     columnTickets <-
       match ticketsByColumn c !! columnTitle with
       | Some bucket => pure bucket
       | None =>
           if inherited columnTitle
           then fail (not_iterable "(currentByColumn[columnTitle] || [])")
           else pure []
       end ;;
     stamp <- now ;;
     let temporary :=
       mkRow ("temp-" +:+ pretty (millis stamp)) title (Some content) columnTitle
             None (Some (iso created)) in
     modify (λ c, set_ticketsByColumn
                    (<[columnTitle := columnTickets ++ [temporary]]> (ticketsByColumn c))
                    c) ;;
     r <- lift (Supabase.insert_draft_select order_default title content columnTitle
                  (iso created)) ;;
     match Supabase.error r with
     | Some insertError =>
         modify (set_error (Some (message insertError))) ;;
         refreshTickets
     | None => refreshTickets
     end)
    (λ e, modify (set_error (Some (caught e "Failed to add ticket."))) ;;
          refreshTickets).

(** [updateTicket(id, updates)] for [updates = { title, content }], the
    only shape the module passes. *)
Definition updateTicket (ticketId newTitle newContent : string) : Action unit :=
  attempt
    (c <- get ;;
     let updatedTickets :=
       map (λ t, if decide (id t = ticketId) then with_updates newTitle newContent t
                 else t)
           (tickets c) in
     match regroup updatedTickets with
     | None => fail (not_a_function "updatedByColumn[columnName].push")
     | Some updatedByColumn =>
         modify (set_tickets updatedTickets) ;;
         modify (set_ticketsByColumn updatedByColumn) ;;
         r <- lift (Supabase.update_ticket ticketId newTitle (Some newContent)) ;;
         match Supabase.error r with
         | Some updateError =>
             modify (set_error (Some (message updateError))) ;;
             refreshTickets
         | None => pure tt
         end
     end)
    (λ e, modify (set_error (Some (caught e "Failed to update ticket."))) ;;
          refreshTickets).

Definition removeTicket (ticket : Row) : Action unit :=
  attempt
    (c <- get ;;
     match ticketsByColumn c !! column ticket with
     | None =>
         if inherited (column ticket)
         then fail (not_a_function "currentByColumn[ticket.column].filter")
         else fail TypeError
     | Some bucket =>
         let columnTickets := filter (λ t, id t ≠ id ticket) bucket in
         modify (λ c, set_ticketsByColumn
                        (<[column ticket := columnTickets]> (ticketsByColumn c)) c) ;;
         r <- lift (Supabase.delete_ticket (id ticket)) ;;
         match Supabase.error r with
         | Some deleteError =>
             modify (set_error (Some (message deleteError))) ;;
             refreshTickets
         | None => pure tt
         end
     end)
    (λ e, modify (set_error (Some (caught e "Failed to remove ticket."))) ;;
          refreshTickets).

(** [saveEdit] makes no comparison.  It does not await [updateTicket]: the
    request and the handling of its answer come after
    [editingTicketId.set(null)]; they neither read nor write the editing
    stores, so the state they end in is the one of the sequence below. *)
Definition saveEdit (ticket : Row) : Action unit :=
  c <- get ;;
  if decide (editingTicketId c = Some (id ticket)) then
    updateTicket (id ticket) (editingTitle c) (editingContent c) ;;
    modify (set_editingTicketId None)
  else pure tt.

End Runtime.

(** The rows after the optimistic step of [updateTicket]. *)
Definition updated_rows (ticketId newTitle newContent : string) (rows : list Row)
    : list Row :=
  map (λ t, if decide (id t = ticketId) then with_updates newTitle newContent t else t)
      rows.

(** The store in which [updateTicket] starts its reload after the update
    failed with [msg]: the optimistic change is in the stores, the flag is
    set, the update has been sent. *)
Definition before_reload (s : Store) (ticketId newTitle newContent : string)
    (byColumn : gmap string (list Row)) (msg : string) : Store :=
  mkStore
    (set_error (Some msg)
       (set_ticketsByColumn byColumn
          (set_tickets (updated_rows ticketId newTitle newContent (tickets (cells s)))
             (cells s))))
    (mkWorld (view (outside s)) (db (outside s)) (window_defined (outside s))
             (localStorage (outside s)) (entropy (outside s))
             (tail (network (outside s)))
             (log (outside s) ++ [UpdateTicket ticketId newTitle (Some newContent)]))
    (clock s).

(** The row [addTicket] shows while its insert is under way: the first
    reading of the clock dates it, the second names it. *)
Definition temporary (s : Store) (columnTitle : string) (title content : option string)
    : Row :=
  mkRow ("temp-" +:+ pretty (millis (hd epoch (tail (clock s)))))
        (default "New ticket" title) (Some (default "" content)) columnTitle
        None (Some (iso (hd epoch (clock s)))).

End TicketStore.

(** ** Vocabulary of the statements *)

(** The next request goes through. *)
Definition goes_through (net : list (option string)) : Prop :=
  match net with
  | Some _ :: _ => False
  | _ => True
  end.

#[global] Instance goes_through_dec net : Decision (goes_through net).
Proof. destruct net as [|[msg|] rest]; simpl; apply _. Defined.

Definition inColumn (c : string) (ticket : Ticket.t) : Prop :=
  Ticket.column ticket = c.

#[global] Instance inColumn_dec c ticket : Decision (inColumn c ticket).
Proof. unfold inColumn. apply _. Defined.

(** Non-decreasing [order]. *)
Definition byOrder (a b : Ticket.t) : Prop := Ticket.order a ≤ Ticket.order b.

(** How many times a row occurs in a list. *)
Definition occurrences (T : Ticket.t) (l : list Ticket.t) : nat :=
  length (filter (λ x, x = T) l).

(** [a] may be shown before [b]: it has at least as many votes. *)
Definition mostVotesFirst (m : Model) (a b : Ticket.t) : Prop :=
  getVoteCount m b ≤ getVoteCount m a.

(** The votes of one voter on one ticket. *)
Definition votesOf (ticket_id voter_id : string) (l : list Vote.t) : list Vote.t :=
  filter (λ v, Vote.ticket_id v = ticket_id ∧ Vote.voter_id v = voter_id) l.

(** No row sits in a column named like an inherited property: the rows the
    grouping loop gets through. *)
Definition groupable (rows : list Ticket.t) : Prop :=
  Forall (λ T, inherited (Ticket.column T) = false) rows.

#[global] Instance groupable_dec rows : Decision (groupable rows).
Proof. unfold groupable. apply _. Defined.

(** The partition of a list of rows by column, each part in the order of
    the list. *)
Definition bucket_push (buckets : gmap string (list Ticket.t)) (T : Ticket.t)
    : gmap string (list Ticket.t) :=
  <[Ticket.column T := default [] (buckets !! Ticket.column T) ++ [T]]> buckets.

Definition buckets_of (rows : list Ticket.t) : gmap string (list Ticket.t) :=
  foldl bucket_push ∅ rows.

(** The hosted rows, ordered and partitioned by column: what a reload is
    meant to install. *)
Definition authoritative (b : Backend) : gmap string (list Ticket.t) :=
  buckets_of (sort_by (λ x y, Ticket.order x - Ticket.order y) (tickets_table b)).

(** The number of votes of the snapshot that are on the ticket of that
    id. *)
Fixpoint votes_on (ticket_id : string) (snapshot : list Vote.t) : nat :=
  match snapshot with
  | [] => 0
  | v :: rest =>
      (if decide (Vote.ticket_id v = ticket_id) then 1 else 0) + votes_on ticket_id rest
  end%nat.

(** [a] has at least as many votes in the snapshot as [b]. *)
Definition outvotes (snapshot : list Vote.t) (a b : Ticket.t) : Prop :=
  (votes_on (Ticket.id b) snapshot ≤ votes_on (Ticket.id a) snapshot)%nat.

(** The bucket of the ticket's column after the optimistic step of
    [saveEdit]. *)
Definition edited_bucket (m : Model) (ticket : Ticket.t) (bucket : list Ticket.t)
    : list Ticket.t :=
  map (λ t, if decide (Ticket.id t = Ticket.id ticket)
            then Ticket.with_text (editingTitle m) (editingContent m) ticket
            else t)
      bucket.

(** The world in which [saveEdit] starts its reload after the update failed
    with [msg]: the optimistic change is in the view, the session is over,
    the flag is set, the update has been sent. *)
Definition before_reload (w : World) (ticket : Ticket.t) (bucket : list Ticket.t)
    (msg : string) : World :=
  mkWorld
    (set_error (Some msg)
       (set_editingTicketId None
          (set_ticketsByColumn
             (<[Ticket.column ticket := edited_bucket (view w) ticket bucket]>
                (ticketsByColumn (view w)))
             (view w))))
    (db w) (window_defined w) (localStorage w) (entropy w) (tail (network w))
    (log w ++ [UpdateTicket (Ticket.id ticket) (editingTitle (view w))
                            (editingContent (view w))]).

(** The profile after the first call: the generated id is stored, one draw
    of the random source is used up. *)
Definition profile_with (u : string) (w : World) : World :=
  set_localStorage (<["voter_id" := u]> (localStorage w))
                   (set_entropy (tail (entropy w)) w).

(** [n] calls in a row, with their results. *)
Fixpoint call_times {A} (n : nat) (c : Task A) : Task (list A) :=
  match n with
  | O => ret []
  | S n' => x <- c ;; xs <- call_times n' c ;; ret (x :: xs)
  end.

(** The view shows the hosted tickets: column by column the bucket holds
    the hosted rows of that column, in some display order (a column without
    a bucket counts as empty). *)
Definition shows_hosted (w : World) : Prop :=
  ∀ c, default [] (ticketsByColumn (view w) !! c)
         ≡ₚ filter (inColumn c) (tickets_table (db w)).

(** The next [n] requests go through. *)
Definition all_go_through (n : nat) (net : list (option string)) : Prop :=
  ∀ i, (i < n)%nat → goes_through (drop i net).

(** A string without double quotes. *)
Fixpoint quote_free (s : string) : Prop :=
  match s with
  | EmptyString => True
  | String c rest => c ≠ dquote ∧ quote_free rest
  end.

(** The last character of [s] is a slash. *)
Fixpoint ends_with_slash (s : string) : bool :=
  match s with
  | EmptyString => false
  | String c EmptyString => Ascii.eqb c "/"
  | String _ rest => ends_with_slash rest
  end.

(** The world after a [toggleVote] whose write and reload went through:
    [table] and [seeds] are what the store holds, [sent] is the write. *)
Definition toggled (w0 : World) (table : list Vote.t) (seeds : list N)
    (sent : Request) : World :=
  mkWorld (set_votes table (view w0))
          (mkBackend (tickets_table (db w0)) table seeds)
          (window_defined w0) (localStorage w0) (entropy w0)
          (tail (tail (network w0))) (log w0 ++ [sent; SelectVotes]).

(** The world after a [saveEdit] whose update went through. *)
Definition saved (w : World) (ticket : Ticket.t) (bucket : list Ticket.t) : World :=
  mkWorld
    (set_editingTicketId None
       (set_ticketsByColumn
          (<[Ticket.column ticket := edited_bucket (view w) ticket bucket]>
             (ticketsByColumn (view w)))
          (view w)))
    (mkBackend
       (map (λ r, if decide (Ticket.id r = Ticket.id ticket)
                  then Ticket.with_text (editingTitle (view w))
                                        (editingContent (view w)) r
                  else r)
            (tickets_table (db w)))
       (votes_table (db w)) (id_seeds (db w)))
    (window_defined w) (localStorage w) (entropy w) (tail (network w))
    (log w ++ [UpdateTicket (Ticket.id ticket) (editingTitle (view w))
                            (editingContent (view w))]).

(** ** A sample board *)

Definition card (id title column : string) (order : Z) : Ticket.t :=
  Ticket.mk id title column order None None (Some "details").

Definition pairing : Ticket.t := card "t1" "Pairing" "Good" 1.
Definition flaky_tests : Ticket.t := card "t2" "Flaky tests" "Bad" 1.
Definition demo_day : Ticket.t := card "t3" "Demo day" "Good" 2.

Definition retro_rows : list Ticket.t := [pairing; flaky_tests; demo_day].

Definition retro_votes : list Vote.t :=
  [Vote.mk "v1" "t1" "ann"; Vote.mk "v2" "t3" "ann"; Vote.mk "v3" "t3" "bob"].

Definition retro_store : Backend := mkBackend retro_rows retro_votes [7%N; 8%N].

(** The board as loaded, nobody editing. *)
Definition retro_view : Model :=
  mkModel {["Good" := [pairing; demo_day]; "Bad" := [flaky_tests]]}
          false None retro_votes None "" (Some "").

(** Ann's browser showing the board, with [net] ahead on the network. *)
Definition retro_world (net : list (option string)) : World :=
  mkWorld retro_view retro_store true {["voter_id" := "ann"]} [42%N] net [].

(** Ann has double-clicked "Pairing" and retitled it. *)
Definition retitling_world (net : list (option string)) : World :=
  set_view (set_editingTitle "Pair programming" (startEdit pairing retro_view))
           (retro_world net).

(** Ann has double-clicked "Pairing" and typed nothing; the network is down. *)
Definition untouched_edit : World :=
  set_view (startEdit pairing retro_view) (retro_world [Some "offline"]).

(** A browser profile that has never produced a voter id. *)
Definition new_profile : World :=
  mkWorld initial_model retro_store true ∅ [42%N] [] [].

(** An environment value as a deployment dashboard may hand it over. *)
Definition quoted (s : string) : string :=
  String dquote (s +:+ String dquote EmptyString).

(** A card of a column the board has no bucket for. *)
Definition stray_idea : Ticket.t := card "t9" "Mob review" "Ideas" 1.

(** Ann's browser with a list of votes that is behind the store: her vote on
    "Pairing" is hosted, the list does not show it. *)
Definition stale_world (net : list (option string)) : World :=
  set_view (set_votes [Vote.mk "v2" "t3" "ann"; Vote.mk "v3" "t3" "bob"] retro_view)
           (retro_world net).

(** A card filed under a column named like an inherited property, and a
    hosted table that holds it. *)
Definition misfiled : Ticket.t := card "t4" "Naming" "constructor" 3.

Definition misfiled_world (net : list (option string)) : World :=
  mkWorld retro_view (mkBackend (retro_rows ++ [misfiled]) retro_votes [7%N; 8%N])
          true {["voter_id" := "ann"]} [42%N] net [].

(** A runtime in which every thrown value is an [Error] object. *)
Definition any_Error (e : Exn) : bool := true.

(** The store module as it is right after loading, in Ann's browser, with
    two readings of the clock ahead. *)
Definition fresh_store (net : list (option string)) : TicketStore.Store :=
  TicketStore.mkStore TicketStore.initial_cells (retro_world net)
    [TicketStore.mkInstant 1700000000000 "2023-11-14T22:13:20.000Z";
     TicketStore.mkInstant 1700000000001 "2023-11-14T22:13:20.001Z"].

(** The temporary row of an [addTicket('Ideas')] in that store. *)
Definition draft : TicketStore.Row :=
  TicketStore.mkRow "temp-1700000000001" "New ticket" (Some "") "Ideas" None
                    (Some "2023-11-14T22:13:20.000Z").

(** The store module after [addTicket('Ideas')], all requests going
    through, and [startEdit] on the new row. *)
Definition drafting_store : TicketStore.Store :=
  let s := (TicketStore.addTicket any_Error 0 "Ideas" None None (fresh_store [])).2 in
  TicketStore.set_cells (TicketStore.startEdit draft (TicketStore.cells s)) s.

(** The same stores, facing the hosted sample board with [net] ahead. *)
Definition drafting_store_facing (net : list (option string)) : TicketStore.Store :=
  TicketStore.mkStore (TicketStore.cells drafting_store) (retro_world net) [].

(** A project address as it is configured. *)
Definition project_url : string := "https://abc.supabase.co".

(** * Properties *)

(** ** JavaScript values *)

Lemma truthy_spec (s : string) : truthy s = true ↔ s ≠ "".
Proof.
  unfold truthy. rewrite negb_true_iff.
  destruct (String.eqb_spec s "") as [->|Hne]; split; congruence.
Qed.

Lemma or_else_truthy (s d : string) : s ≠ "" → or_else (Some s) d = s.
Proof. intros Hs. unfold or_else. apply truthy_spec in Hs. by rewrite Hs. Qed.

Lemma hex_length (k : nat) (n : N) (rest : string) :
  String.length (hex k n rest) = (k + String.length rest)%nat.
Proof.
  revert n rest. induction k as [|k IH]; intros n rest; simpl; [done|].
  rewrite IH. simpl. lia.
Qed.

(** A UUID has 36 characters; in particular it is a truthy string. *)
Lemma uuid_string_length (n : N) : String.length (uuid_string n) = 36%nat.
Proof. unfold uuid_string. repeat (rewrite hex_length; simpl). done. Qed.

Lemma uuid_string_truthy (n : N) : truthy (uuid_string n) = true.
Proof.
  apply truthy_spec. intros Heq.
  pose proof (uuid_string_length n) as Hlen. rewrite Heq in Hlen. discriminate.
Qed.

(** ** Ordering by a comparator that subtracts keys *)

Section SortByKey.
Context {A : Type} (cmp : A → A → Z) (key : A → Z).
Hypothesis cmp_key : ∀ x y, cmp x y = key x - key y.

Let ascending (x y : A) : Prop := key x ≤ key y.

Lemma sort_insert_perm (x : A) (l : list A) : sort_insert cmp x l ≡ₚ x :: l.
Proof.
  induction l as [|y l IH]; simpl; [done|].
  destruct (cmp x y <=? 0); [done|].
  rewrite IH. apply perm_swap.
Qed.

Lemma sort_by_perm (l : list A) : sort_by cmp l ≡ₚ l.
Proof.
  induction l as [|x l IH]; simpl; [done|].
  by rewrite sort_insert_perm, IH.
Qed.

Lemma sort_insert_sorted (x : A) (l : list A) :
  StronglySorted ascending l → StronglySorted ascending (sort_insert cmp x l).
Proof.
  induction 1 as [|y l Hl IH Hy]; simpl.
  - repeat constructor.
  - rewrite cmp_key. destruct (Z.leb_spec (key x - key y) 0) as [Hle|Hgt].
    + constructor; [by constructor|].
      constructor; [unfold ascending; lia|].
      eapply Forall_impl; [exact Hy|]. unfold ascending. intros z Hz. lia.
    + constructor; [exact IH|].
      rewrite sort_insert_perm. constructor; [unfold ascending; lia|exact Hy].
Qed.

Lemma sort_by_sorted (l : list A) : StronglySorted ascending (sort_by cmp l).
Proof.
  induction l as [|x l IH]; simpl; [constructor|].
  by apply sort_insert_sorted.
Qed.

End SortByKey.

Lemma StronglySorted_filter_keep {A} (R : A → A → Prop) (P : A → Prop)
    `{!∀ x, Decision (P x)} (l : list A) :
  StronglySorted R l → StronglySorted R (filter P l).
Proof.
  induction 1 as [|x l Hl IH Hx]; [constructor|].
  rewrite filter_cons. destruct (decide (P x)); [|exact IH].
  constructor; [exact IH|].
  apply Forall_forall. intros y Hy. apply list_elem_of_filter in Hy as [_ Hy].
  rewrite Forall_forall in Hx. by apply Hx.
Qed.

(** ** Grouping by column *)

Lemma bucket_push_lookup buckets T c :
  bucket_push buckets T !! c =
    if decide (Ticket.column T = c)
    then Some (default [] (buckets !! c) ++ [T])
    else buckets !! c.
Proof.
  unfold bucket_push. destruct (decide (Ticket.column T = c)) as [<-|Hne].
  - by rewrite lookup_insert_eq.
  - by rewrite lookup_insert_ne.
Qed.

(** Every part is the list restricted to its column, in the order of the
    list; a column without rows has no part. *)
Lemma buckets_of_lookup (data : list Ticket.t) (c : string) :
  buckets_of data !! c =
    match filter (inColumn c) data with
    | [] => None
    | bucket => Some bucket
    end.
Proof.
  unfold buckets_of.
  induction data as [|ticket data IH] using rev_ind; [done|].
  rewrite foldl_app. simpl. rewrite bucket_push_lookup, filter_app, IH.
  rewrite filter_cons, filter_nil. unfold inColumn at 2 4.
  destruct (decide (Ticket.column ticket = c)) as [Heq|Hne].
  - destruct (filter (inColumn c) data); done.
  - by rewrite app_nil_r.
Qed.

(** A turn of the loop for a row in an ordinary column appends the row to
    the part of its column. *)
Lemma group_push_plain grouped ticket :
  inherited (Ticket.column ticket) = false →
  group_push grouped ticket = Some (bucket_push grouped ticket).
Proof.
  intros Hplain. unfold group_push, bucket_push. rewrite Hplain.
  destruct (grouped !! Ticket.column ticket) as [bucket|] eqn:Hb.
  - by rewrite Hb.
  - rewrite lookup_insert_eq. simpl. by rewrite insert_insert_eq.
Qed.

(** A turn for a row in a column named like an inherited property throws,
    as long as the mapping has no own property of that name. *)
Lemma group_push_inherited grouped ticket :
  inherited (Ticket.column ticket) = true →
  grouped !! Ticket.column ticket = None →
  group_push grouped ticket = None.
Proof. intros Hin Hb. unfold group_push. by rewrite Hb, Hin, Hb. Qed.

Lemma group_loop_groupable grouped data :
  groupable data → group_loop grouped data = Some (foldl bucket_push grouped data).
Proof.
  intros Hdata. revert grouped.
  induction Hdata as [|ticket data Hplain _ IH]; intros grouped; simpl; [done|].
  by rewrite group_push_plain.
Qed.

Lemma group_loop_not_groupable grouped data :
  (∀ c, inherited c = true → grouped !! c = None) →
  ¬ groupable data → group_loop grouped data = None.
Proof.
  revert grouped. induction data as [|ticket data IH]; intros grouped Hown Hdata.
  - destruct Hdata. constructor.
  - simpl. destruct (inherited (Ticket.column ticket)) eqn:Hin.
    + by rewrite group_push_inherited by auto.
    + rewrite group_push_plain by done. apply IH.
      * intros c Hc. rewrite bucket_push_lookup.
        rewrite decide_False by congruence. auto.
      * intros Hrest. apply Hdata. by constructor.
Qed.

(** The grouping loop gets through exactly the groupable lists, and then
    gives the partition by column. *)
Lemma groupByColumn_groupable (data : list Ticket.t) :
  groupable data → groupByColumn data = Some (buckets_of data).
Proof. apply group_loop_groupable. Qed.

Lemma groupByColumn_not_groupable (data : list Ticket.t) :
  ¬ groupable data → groupByColumn data = None.
Proof. by apply group_loop_not_groupable. Qed.

Lemma groupable_sort_by (cmp : Ticket.t → Ticket.t → Z) (rows : list Ticket.t) :
  groupable (sort_by cmp rows) ↔ groupable rows.
Proof. unfold groupable. by rewrite sort_by_perm. Qed.

(** ** Requests and the network *)

Lemma request_goes_through {A} (r : Request) (serve : Backend → option A * Backend)
    (w : World) :
  goes_through (network w) →
  Supabase.request r serve w =
    (Returned (Supabase.mkResponse (serve (db w)).1 None),
     mkWorld (view w) (serve (db w)).2 (window_defined w) (localStorage w)
             (entropy w) (tail (network w)) (log w ++ [r])).
Proof.
  intros Hnet. unfold Supabase.request.
  destruct (network w) as [|[msg|] rest]; simpl in *; [|done|];
    by destruct (serve (db w)).
Qed.

Lemma request_fails {A} (r : Request) (serve : Backend → option A * Backend)
    (w : World) (msg : string) (rest : list (option string)) :
  network w = Some msg :: rest →
  Supabase.request r serve w =
    (Returned (Supabase.mkResponse None (Some (mkExn msg))),
     mkWorld (view w) (db w) (window_defined w) (localStorage w)
             (entropy w) rest (log w ++ [r])).
Proof. intros Hnet. unfold Supabase.request. by rewrite Hnet. Qed.

(** ** Ticket repository *)

Lemma occurrences_absent (T : Ticket.t) (l : list Ticket.t) :
  T ∉ l → occurrences T l = 0%nat.
Proof.
  unfold occurrences. induction l as [|x l IH]; [done|].
  rewrite not_elem_of_cons. intros [Hne Hnotin].
  rewrite filter_cons. destruct (decide (x = T)); [congruence|auto].
Qed.

Lemma occurrences_NoDup (T : Ticket.t) (l : list Ticket.t) :
  NoDup l → T ∈ l → occurrences T l = 1%nat.
Proof.
  induction 1 as [|x l Hx Hl IH]; [by rewrite elem_of_nil|].
  rewrite elem_of_cons. unfold occurrences. rewrite filter_cons.
  intros [->|Hin].
  - rewrite decide_True by done. simpl. f_equal. by apply occurrences_absent.
  - destruct (decide (x = T)) as [->|Hne]; [done|]. by apply IH.
Qed.

Lemma occurrences_own_column (T : Ticket.t) (data : list Ticket.t) :
  occurrences T (filter (inColumn (Ticket.column T)) data) = occurrences T data.
Proof.
  unfold occurrences. rewrite list_filter_filter. f_equal.
  apply list_filter_iff. intros x. unfold inColumn. split; [tauto|].
  intros ->. done.
Qed.

(** When the read goes through, the rows come back ordered by [order]. *)
Lemma select_tickets_ordered_sorted (w : World) :
  goes_through (network w) →
  ∃ data w',
    Supabase.select_tickets_ordered w
      = (Returned (Supabase.mkResponse (Some data) None), w') ∧
    data ≡ₚ tickets_table (db w) ∧
    StronglySorted byOrder data ∧
    db w' = db w ∧ view w' = view w ∧ log w' = log w ++ [SelectTickets].
Proof.
  intros Hnet. unfold Supabase.select_tickets_ordered.
  rewrite request_goes_through by done. simpl.
  eexists _, _. split; [reflexivity|]. simpl.
  split; [apply sort_by_perm|].
  split; [|done].
  apply (sort_by_sorted _ Ticket.order). done.
Qed.

(** X21. For every groupable list of rows the ordered read returns,
    [fetchTickets] returns a mapping in which every ticket occurs in the
    bucket keyed by its own column exactly as often as among the rows (once,
    when the rows are pairwise distinct), occurs in no other bucket, and
    every bucket is the restriction of the fetched list to its column, in
    fetch order, hence non-decreasing in [order]. *)
Theorem fetchTickets_partition (w w' : World) (data : list Ticket.t) :
  Supabase.select_tickets_ordered w
    = (Returned (Supabase.mkResponse (Some data) None), w') →
  StronglySorted byOrder data →
  groupable data →
  ∃ grouped,
    fetchTickets w = (Returned grouped, w') ∧
    (∀ T, T ∈ data →
       ∃ bucket, grouped !! Ticket.column T = Some bucket ∧
                 occurrences T bucket = occurrences T data ∧
                 (NoDup data → occurrences T bucket = 1%nat)) ∧
    (∀ c bucket T, grouped !! c = Some bucket → T ∈ bucket →
       T ∈ data ∧ Ticket.column T = c) ∧
    (∀ c bucket, grouped !! c = Some bucket →
       bucket = filter (inColumn c) data ∧ StronglySorted byOrder bucket).
Proof.
  intros Hread Hsorted Hplain. exists (buckets_of data).
  assert (Hbucket : ∀ c bucket, buckets_of data !! c = Some bucket →
                                bucket = filter (inColumn c) data).
  { intros c bucket. rewrite buckets_of_lookup.
    destruct (filter (inColumn c) data); congruence. }
  split; [|split; [|split]].
  - unfold fetchTickets, bind. rewrite Hread. simpl.
    by rewrite groupByColumn_groupable.
  - intros T HT.
    assert (Hin : T ∈ filter (inColumn (Ticket.column T)) data).
    { apply list_elem_of_filter. by split. }
    exists (filter (inColumn (Ticket.column T)) data).
    split; [|split].
    + rewrite buckets_of_lookup.
      destruct (filter (inColumn (Ticket.column T)) data); [|done].
      by apply elem_of_nil in Hin.
    + apply occurrences_own_column.
    + intros Hnodup. rewrite occurrences_own_column.
      by apply occurrences_NoDup.
  - intros c bucket T Hlookup HT. apply Hbucket in Hlookup as ->.
    apply list_elem_of_filter in HT as [Hc HT]. done.
  - intros c bucket Hlookup. apply Hbucket in Hlookup as ->.
    split; [done|]. by apply StronglySorted_filter_keep.
Qed.

(** On the sample board: the read returns the three rows, "Demo day" sits once
    in the bucket of "Good". *)
Lemma fetchTickets_partition_witness :
  ∃ grouped,
    fetchTickets (retro_world []) = (Returned grouped, after fetchTickets (retro_world [])) ∧
    grouped !! "Good" = Some [pairing; demo_day] ∧
    occurrences demo_day [pairing; demo_day] = 1%nat.
Proof.
  destruct (fetchTickets_partition (retro_world [])
              (after fetchTickets (retro_world [])) retro_rows)
    as (grouped & Hrun & Hin & _ & Hbucket).
  - vm_compute. reflexivity.
  - repeat constructor; unfold byOrder; simpl; lia.
  - repeat constructor.
  - exists grouped. split; [exact Hrun|].
    destruct (Hin demo_day) as (bucket & Hlookup & _ & Honce);
      [compute_done|].
    simpl in Hlookup.
    destruct (Hbucket "Good" bucket Hlookup) as [-> _].
    split; [exact Hlookup|]. apply Honce. compute_done.
Defined.

(** When the read returns a row whose column is named like an inherited
    property, the grouping loop throws and so does [fetchTickets]. *)
Lemma fetchTickets_not_groupable (w w' : World) (data : list Ticket.t) :
  Supabase.select_tickets_ordered w
    = (Returned (Supabase.mkResponse (Some data) None), w') →
  ¬ groupable data →
  fetchTickets w = (Thrown (not_a_function "grouped[ticket.column].push"), w').
Proof.
  intros Hread Hdata. unfold fetchTickets, bind. rewrite Hread. simpl.
  by rewrite groupByColumn_not_groupable.
Qed.

(** A reload, case by case. *)
Lemma refreshTickets_goes_through (w : World) :
  goes_through (network w) →
  groupable (tickets_table (db w)) →
  ∃ w', refreshTickets w = (Returned tt, w') ∧
        view w' = set_loading false
                    (set_ticketsByColumn (authoritative (db w))
                       (set_loading true (view w))) ∧
        db w' = db w ∧
        network w' = tail (network w) ∧
        log w' = log w ++ [SelectTickets].
Proof.
  intros Hnet Hplain.
  unfold refreshTickets, try_catch_finally, try_catch, fetchTickets, bind, update,
    Supabase.select_tickets_ordered.
  rewrite request_goes_through by done. simpl.
  rewrite groupByColumn_groupable by (by apply groupable_sort_by).
  eexists. split; [reflexivity|]. done.
Qed.

(** The read goes through but a hosted row sits in a column named like an
    inherited property: the grouping throws, the reload catches it, keeps
    the buckets and shows the message. *)
Lemma refreshTickets_not_groupable (w : World) :
  goes_through (network w) →
  ¬ groupable (tickets_table (db w)) →
  ∃ w', refreshTickets w = (Returned tt, w') ∧
        view w' = set_loading false
                    (set_error (Some (message (not_a_function "grouped[ticket.column].push")))
                       (set_loading true (view w))) ∧
        db w' = db w ∧
        network w' = tail (network w) ∧
        log w' = log w ++ [SelectTickets].
Proof.
  intros Hnet Hodd.
  unfold refreshTickets, try_catch_finally, try_catch, fetchTickets, bind, update,
    Supabase.select_tickets_ordered.
  rewrite request_goes_through by done. simpl.
  rewrite groupByColumn_not_groupable by (by rewrite groupable_sort_by).
  eexists. split; [reflexivity|]. done.
Qed.

Lemma refreshTickets_fails (w : World) (msg : string) (rest : list (option string)) :
  network w = Some msg :: rest →
  ∃ w', refreshTickets w = (Returned tt, w') ∧
        view w' = set_loading false
                    (set_error (Some (or_else (Some msg) "Failed to load tickets."))
                       (set_loading true (view w))) ∧
        db w' = db w ∧
        network w' = rest ∧
        log w' = log w ++ [SelectTickets].
Proof.
  intros Hnet.
  unfold refreshTickets, try_catch_finally, try_catch, fetchTickets, bind, update,
    Supabase.select_tickets_ordered.
  rewrite (request_fails _ _ _ msg rest) by done. simpl.
  eexists. split; [reflexivity|]. done.
Qed.

(** C2.  The claim fails whenever the read returns a row filed under a
    column named like an inherited property.  In the grouping loop
    [grouped[ticket.column]] is then the inherited value, so no bucket is
    created and [push] is not a function: [fetchTickets] throws and returns
    no mapping at all, for none of the rows.  A reload catches the error,
    keeps the buckets it had and shows the message. *)
Theorem fetchTickets_inherited_column_throws (w : World) (T : Ticket.t) :
  goes_through (network w) →
  T ∈ tickets_table (db w) →
  inherited (Ticket.column T) = true →
  ∃ data w1 w2,
    Supabase.select_tickets_ordered w
      = (Returned (Supabase.mkResponse (Some data) None), w1) ∧
    T ∈ data ∧
    groupByColumn data = None ∧
    fetchTickets w = (Thrown (not_a_function "grouped[ticket.column].push"), w1) ∧
    refreshTickets w = (Returned tt, w2) ∧
    ticketsByColumn (view w2) = ticketsByColumn (view w) ∧
    error (view w2) = Some (message (not_a_function "grouped[ticket.column].push")).
Proof.
  intros Hnet HT Hin.
  destruct (select_tickets_ordered_sorted w Hnet)
    as (data & w1 & Hread & Hperm & _).
  assert (Hodd : ¬ groupable (tickets_table (db w))).
  { unfold groupable. rewrite Forall_forall. intros Hall.
    specialize (Hall T HT). simpl in Hall. congruence. }
  assert (Hodd' : ¬ groupable data).
  { unfold groupable. by rewrite Hperm. }
  destruct (refreshTickets_not_groupable w Hnet Hodd) as (w2 & Hrun & Hview & _).
  exists data, w1, w2. rewrite Hview. split_and!; try done.
  - by rewrite Hperm.
  - by apply groupByColumn_not_groupable.
  - by apply (fetchTickets_not_groupable w w1 data).
Qed.

(** The hosted table of the sample board also holds a card whose column is
    "constructor".  The ordered read returns the four rows, [fetchTickets]
    throws, and after a reload the board shows the error and the buckets it
    had. *)
Lemma fetchTickets_inherited_column_throws_witness :
  (Supabase.select_tickets_ordered (misfiled_world [])).1
    = Returned (Supabase.mkResponse (Some [pairing; flaky_tests; demo_day; misfiled]) None) ∧
  (fetchTickets (misfiled_world [])).1
    = Thrown (not_a_function "grouped[ticket.column].push") ∧
  (refreshTickets (misfiled_world [])).1 = Returned tt ∧
  error (view (after refreshTickets (misfiled_world [])))
    = Some "grouped[ticket.column].push is not a function" ∧
  ticketsByColumn (view (after refreshTickets (misfiled_world [])))
    = ticketsByColumn retro_view.
Proof.
  destruct (fetchTickets_inherited_column_throws (misfiled_world []) misfiled)
    as (data & w1 & w2 & Hread & _ & _ & Hfetch & Hrun & Hbuckets & Herr).
  - exact I.
  - compute_done.
  - reflexivity.
  - split; [reflexivity|]. rewrite Hfetch. split; [reflexivity|].
    unfold after. rewrite Hrun. simpl. split; [reflexivity|].
    split; [exact Herr|exact Hbuckets].
Defined.

(** ** The store module: its reload *)

(** [refreshTickets] of the store module always returns after exactly one
    read, and never installs what it read: [tickets] and [ticketsByColumn]
    are as before and the error store holds what the [catch] made of the
    thrown value [e]: the read's error when the read failed, the grouping's
    when a hosted row is not groupable, and otherwise the one of
    [data.forEach]. *)
Lemma store_refreshTickets_run (instanceofError : Exn → bool) (s : TicketStore.Store) :
  ∃ e s',
    TicketStore.refreshTickets instanceofError s = (Returned tt, s') ∧
    TicketStore.cells s'
      = TicketStore.set_loading false
          (TicketStore.set_error
             (Some (TicketStore.caught instanceofError e "Failed to load tickets."))
             (TicketStore.set_loading true (TicketStore.cells s))) ∧
    TicketStore.clock s' = TicketStore.clock s ∧
    db (TicketStore.outside s') = db (TicketStore.outside s) ∧
    log (TicketStore.outside s') = log (TicketStore.outside s) ++ [SelectTickets] ∧
    network (TicketStore.outside s') = tail (network (TicketStore.outside s)) ∧
    (∀ msg rest, network (TicketStore.outside s) = Some msg :: rest → e = mkExn msg) ∧
    (goes_through (network (TicketStore.outside s)) →
       e = if decide (groupable (tickets_table (db (TicketStore.outside s))))
           then not_a_function "data.forEach"
           else not_a_function "grouped[ticket.column].push").
Proof.
  unfold TicketStore.refreshTickets, TicketStore.attempt_finally, TicketStore.attempt,
    TicketStore.and_then, TicketStore.modify, TicketStore.lift, TicketStore.fail,
    fetchTickets, bind, Supabase.select_tickets_ordered.
  destruct (decide (goes_through (network (TicketStore.outside s)))) as [Hok|Hko].
  - simpl. rewrite request_goes_through by done. simpl.
    destruct (decide (groupable (tickets_table (db (TicketStore.outside s)))))
      as [Hplain|Hodd].
    + rewrite groupByColumn_groupable by (by apply groupable_sort_by). simpl.
      eexists _, _. split; [reflexivity|]. simpl. split_and!; try done.
      intros msg rest Hnet. by rewrite Hnet in Hok.
    + rewrite groupByColumn_not_groupable by (by rewrite groupable_sort_by). simpl.
      eexists _, _. split; [reflexivity|]. simpl. split_and!; try done.
      intros msg rest Hnet. by rewrite Hnet in Hok.
  - destruct (network (TicketStore.outside s)) as [|[msg|] rest] eqn:Hnet;
      simpl in Hko; try done.
    simpl. rewrite (request_fails _ _ _ msg rest) by done. simpl.
    eexists _, _. split; [reflexivity|]. simpl. split_and!; try done.
    by intros msg' rest' [= <- <-].
Qed.

(** ** The store module: updates *)

Lemma store_updateTicket_goes_through (instanceofError : Exn → bool)
    (s : TicketStore.Store) (ticketId newTitle newContent : string)
    (byColumn : gmap string (list TicketStore.Row)) :
  TicketStore.regroup
    (TicketStore.updated_rows ticketId newTitle newContent
       (TicketStore.tickets (TicketStore.cells s))) = Some byColumn →
  goes_through (network (TicketStore.outside s)) →
  ∃ s', TicketStore.updateTicket instanceofError ticketId newTitle newContent s
          = (Returned tt, s') ∧
        TicketStore.cells s'
          = TicketStore.set_ticketsByColumn byColumn
              (TicketStore.set_tickets
                 (TicketStore.updated_rows ticketId newTitle newContent
                    (TicketStore.tickets (TicketStore.cells s)))
                 (TicketStore.cells s)) ∧
        log (TicketStore.outside s')
          = log (TicketStore.outside s) ++ [UpdateTicket ticketId newTitle (Some newContent)].
Proof.
  intros Hgroup Hnet.
  unfold TicketStore.updateTicket, TicketStore.attempt, TicketStore.and_then at 1,
    TicketStore.get.
  unfold TicketStore.updated_rows in Hgroup. rewrite Hgroup.
  unfold TicketStore.and_then, TicketStore.modify, TicketStore.lift,
    Supabase.update_ticket. simpl.
  rewrite request_goes_through by done. simpl.
  eexists. split; [reflexivity|]. done.
Qed.

Lemma store_updateTicket_fails (instanceofError : Exn → bool)
    (s : TicketStore.Store) (ticketId newTitle newContent : string)
    (byColumn : gmap string (list TicketStore.Row)) (msg : string)
    (rest : list (option string)) :
  TicketStore.regroup
    (TicketStore.updated_rows ticketId newTitle newContent
       (TicketStore.tickets (TicketStore.cells s))) = Some byColumn →
  network (TicketStore.outside s) = Some msg :: rest →
  TicketStore.updateTicket instanceofError ticketId newTitle newContent s
    = TicketStore.refreshTickets instanceofError
        (TicketStore.before_reload s ticketId newTitle newContent byColumn msg).
Proof.
  intros Hgroup Hnet.
  unfold TicketStore.updateTicket, TicketStore.attempt, TicketStore.and_then at 1,
    TicketStore.get.
  unfold TicketStore.updated_rows in Hgroup. rewrite Hgroup.
  unfold TicketStore.and_then at 1 2 3, TicketStore.modify at 1 2,
    TicketStore.lift, Supabase.update_ticket. simpl.
  rewrite (request_fails _ _ _ msg rest) by done. simpl.
  unfold TicketStore.and_then at 1, TicketStore.modify at 1. simpl.
  unfold TicketStore.before_reload, TicketStore.set_cells, TicketStore.updated_rows.
  simpl. rewrite Hnet. simpl.
  destruct (store_refreshTickets_run instanceofError
              (TicketStore.mkStore
                 (TicketStore.set_error (Some msg)
                    (TicketStore.set_ticketsByColumn byColumn
                       (TicketStore.set_tickets
                          (map (λ t, if decide (TicketStore.id t = ticketId)
                                     then TicketStore.with_updates newTitle newContent t
                                     else t)
                               (TicketStore.tickets (TicketStore.cells s)))
                          (TicketStore.cells s))))
                 (mkWorld (view (TicketStore.outside s)) (db (TicketStore.outside s))
                    (window_defined (TicketStore.outside s))
                    (localStorage (TicketStore.outside s))
                    (entropy (TicketStore.outside s)) rest
                    (log (TicketStore.outside s)
                       ++ [UpdateTicket ticketId newTitle (Some newContent)]))
                 (TicketStore.clock s)))
    as (e & s' & Hrun & _).
  by rewrite Hrun.
Qed.

(** ** Display ordering *)

Lemma StronglySorted_weaken {A} (R R' : A → A → Prop) (l : list A) :
  (∀ x y, R x y → R' x y) → StronglySorted R l → StronglySorted R' l.
Proof.
  intros HR. induction 1 as [|x l Hl IH Hx]; constructor; [done|].
  eapply Forall_impl; [exact Hx|]. auto.
Qed.

Lemma sort_byVotes_sorted (m : Model) (l : list Ticket.t) :
  StronglySorted (mostVotesFirst m) (sort_by (byVotes m) l).
Proof.
  eapply StronglySorted_weaken;
    [|apply (sort_by_sorted (byVotes m) (λ t, - getVoteCount m t))].
  - simpl. unfold mostVotesFirst. intros x y. lia.
  - intros x y. unfold byVotes. lia.
Qed.

(** [getVoteCount] counts the votes of the snapshot on the ticket. *)
Lemma getVoteCount_votes_on (m : Model) (t : Ticket.t) :
  getVoteCount m t = Z.of_nat (votes_on (Ticket.id t) (votes m)).
Proof.
  unfold getVoteCount. f_equal.
  induction (votes m) as [|v l IH]; [done|].
  rewrite filter_cons. simpl. destruct (decide (Vote.ticket_id v = Ticket.id t)); simpl; lia.
Qed.

Lemma sort_byVotes_outvotes (m : Model) (l : list Ticket.t) :
  StronglySorted (outvotes (votes m)) (sort_by (byVotes m) l).
Proof.
  eapply StronglySorted_weaken; [|apply sort_byVotes_sorted].
  unfold mostVotesFirst, outvotes. intros x y.
  rewrite !getVoteCount_votes_on. lia.
Qed.

(** C5. For every snapshot of the votes and every column's ticket list, the
    cards come out non-increasing in the number of votes the snapshot holds
    on them, which is the number [getVoteCount] gives, and are a permutation
    of the bucket: the same records, each as often as before, so no identity
    is duplicated or lost and every [order] field is the one the ticket had.
    The sort reorders the bucket of the view in place; it sends no request
    and leaves the hosted rows, the votes and the other buckets alone. *)
Theorem render_sorted_permutation (w : World) (c : string) :
  ∃ shown w',
    render c w = (Returned shown, w') ∧
    StronglySorted (outvotes (votes (view w))) shown ∧
    (∀ t, getVoteCount (view w) t = Z.of_nat (votes_on (Ticket.id t) (votes (view w)))) ∧
    shown ≡ₚ default [] (ticketsByColumn (view w) !! c) ∧
    Ticket.id <$> shown ≡ₚ Ticket.id <$> default [] (ticketsByColumn (view w) !! c) ∧
    Ticket.order <$> shown ≡ₚ Ticket.order <$> default [] (ticketsByColumn (view w) !! c) ∧
    default [] (ticketsByColumn (view w') !! c) = shown ∧
    (∀ c', c' ≠ c → ticketsByColumn (view w') !! c' = ticketsByColumn (view w) !! c') ∧
    votes (view w') = votes (view w) ∧
    db w' = db w ∧ log w' = log w.
Proof.
  unfold render, renderColumn.
  destruct (ticketsByColumn (view w) !! c) as [[|first others]|] eqn:Hb; simpl.
  - eexists _, _. split; [reflexivity|]. simpl. rewrite Hb. simpl.
    split_and!; try done; [constructor|apply getVoteCount_votes_on].
  - eexists _, _. split; [reflexivity|]. simpl. rewrite lookup_insert_eq. simpl.
    pose proof (sort_by_perm (byVotes (view w)) (first :: others)) as Hperm.
    simpl in Hperm.
    split_and!; try done.
    + apply (sort_byVotes_outvotes (view w) (first :: others)).
    + apply getVoteCount_votes_on.
    + by rewrite Hperm.
    + by rewrite Hperm.
    + intros c' Hne. by rewrite lookup_insert_ne.
  - eexists _, _. split; [reflexivity|]. simpl. rewrite Hb. simpl.
    split_and!; try done; [constructor|apply getVoteCount_votes_on].
Qed.

(** On the sample board the bucket of "Good" is "Pairing", "Demo day".  The
    snapshot holds one vote on "Pairing" and two on "Demo day": "Demo day"
    is shown first. *)
Lemma render_sorted_permutation_witness :
  votes_on "t1" retro_votes = 1%nat ∧ votes_on "t3" retro_votes = 2%nat ∧
  ticketsByColumn (view (retro_world [])) !! "Good" = Some [pairing; demo_day] ∧
  (render "Good" (retro_world [])).1 = Returned [demo_day; pairing].
Proof.
  split; [reflexivity|]. split; [reflexivity|]. split; [reflexivity|].
  destruct (render_sorted_permutation (retro_world []) "Good")
    as (shown & w' & Hrun & Hsorted & _ & Hperm & _).
  rewrite Hrun. simpl. f_equal.
  change (shown ≡ₚ [pairing; demo_day]) in Hperm. symmetry in Hperm.
  apply Permutation_length_2_inv in Hperm as [->| ->]; [exfalso|done].
  apply StronglySorted_inv in Hsorted as [_ Hfirst].
  apply Forall_cons in Hfirst as [Hfirst _].
  unfold outvotes in Hfirst. vm_compute in Hfirst. lia.
Defined.

(** ** Edit sessions *)

Lemma isEditing_at_most_one (m : Model) (l : list Ticket.t) :
  NoDup (Ticket.id <$> l) → (length (filter (isEditing m) l) ≤ 1)%nat.
Proof.
  induction l as [|x l IH]; simpl; [lia|].
  rewrite NoDup_cons. intros [Hx Hl]. rewrite filter_cons.
  destruct (decide (isEditing m x)) as [Hed|Hed]; [|by apply IH].
  assert (filter (isEditing m) l = []) as ->; [|simpl; lia].
  destruct (filter (isEditing m) l) as [|y l'] eqn:Hf; [done|].
  assert (Hy : y ∈ filter (isEditing m) l) by (rewrite Hf; left).
  apply list_elem_of_filter in Hy as [Hyed Hy].
  destruct Hx. unfold isEditing in *.
  assert (Ticket.id x = Ticket.id y) as -> by congruence.
  by apply list_elem_of_fmap_2.
Qed.

(** C8. In every state of the controller, reachable or not, the tickets in
    edit mode all carry the one id held by [editingTicketId], so among
    tickets with pairwise distinct ids at most one is in edit mode;
    [startEdit] on the ticket being edited changes nothing; [startEdit] on
    another ticket [B] while [A] is being edited leaves [B], and no longer
    [A], in edit mode, with the editing fields taken from [B]
    ([content || ''] for the content) and the rest of the view model
    untouched. *)
Theorem startEdit_single_session (m : Model) (A B : Ticket.t) :
  (∀ x y, isEditing m x → isEditing m y → Ticket.id x = Ticket.id y) ∧
  (∀ l, NoDup (Ticket.id <$> l) → (length (filter (isEditing m) l) ≤ 1)%nat) ∧
  (isEditing m A → startEdit A m = m) ∧
  (isEditing m A → Ticket.id B ≠ Ticket.id A →
     let m' := startEdit B m in
     isEditing m' B ∧ ¬ isEditing m' A ∧
     (∀ x, isEditing m' x → Ticket.id x = Ticket.id B) ∧
     editingTitle m' = Ticket.title B ∧
     editingContent m' = Some (or_else (Ticket.content B) "") ∧
     ticketsByColumn m' = ticketsByColumn m ∧ votes m' = votes m ∧
     loading m' = loading m ∧ error m' = error m).
Proof.
  split_and!.
  - unfold isEditing. intros x y Hx Hy. congruence.
  - apply isEditing_at_most_one.
  - unfold isEditing. intros HA. unfold startEdit. by rewrite decide_True.
  - unfold isEditing. intros HA Hne. unfold startEdit.
    rewrite decide_False by (rewrite HA; congruence). simpl.
    split_and!; try done; congruence.
Qed.

(** On the sample board: a second double-click on "Pairing" changes nothing;
    a double-click on "Demo day" moves the session there. *)
Lemma startEdit_single_session_witness :
  startEdit pairing (startEdit pairing retro_view) = startEdit pairing retro_view ∧
  isEditing (startEdit demo_day (startEdit pairing retro_view)) demo_day ∧
  ¬ isEditing (startEdit demo_day (startEdit pairing retro_view)) pairing.
Proof.
  destruct (startEdit_single_session (startEdit pairing retro_view) pairing demo_day)
    as (_ & _ & Hsame & Hother).
  split; [apply Hsame; reflexivity|].
  destruct Hother as (HB & HA & _); [reflexivity|discriminate|].
  split; [exact HB|exact HA].
Defined.

(** C9. With no edit session ([editingTicketId] is [null]), [saveEdit]
    returns at once for every ticket: the whole world, and with it the view
    model, the hosted store and the log of requests, is as before. *)
Theorem saveEdit_without_session (w : World) (ticket : Ticket.t) :
  editingTicketId (view w) = None →
  saveEdit ticket w = (Returned tt, w).
Proof.
  intros Hnone. unfold saveEdit, bind, read. by rewrite Hnone.
Qed.

(** On the sample board with nobody editing. *)
Lemma saveEdit_without_session_witness :
  editingTicketId (view (retro_world [])) = None ∧
  saveEdit pairing (retro_world []) = (Returned tt, retro_world []).
Proof.
  split; [reflexivity|].
  apply (saveEdit_without_session (retro_world []) pairing). reflexivity.
Defined.

(** C3, as the code has it.  [saveEdit] of the page: during an edit
    session, when the editing title is the ticket's title and the editing
    content is the ticket's content (a missing content counting as the empty
    string), it only clears [editingTicketId]: no request is sent, the
    hosted rows and the buckets are as before.  [saveEdit] of the store
    module makes no comparison: when the ticket is the one being edited it
    returns with the edit mode left and, its regrouping of [tickets] having
    got through, with the update of the editing title and content sent first,
    whether or not they differ from the ticket's; when another ticket or
    none is being edited it does nothing. *)
Theorem saveEdit_unchanged :
  (∀ (w : World) (ticket : Ticket.t),
     truthy_opt (editingTicketId (view w)) = true →
     editingTitle (view w) = Ticket.title ticket →
     editingContent (view w) = Some (or_else (Ticket.content ticket) "") →
     saveEdit ticket w = (Returned tt, set_view (set_editingTicketId None (view w)) w) ∧
     let w' := after (saveEdit ticket) w in
     log w' = log w ∧ db w' = db w ∧
     ticketsByColumn (view w') = ticketsByColumn (view w) ∧
     editingTicketId (view w') = None) ∧
  (∀ (instanceofError : Exn → bool) (s : TicketStore.Store) (ticket : TicketStore.Row),
     let c := TicketStore.cells s in
     (TicketStore.editingTicketId c = Some (TicketStore.id ticket) →
      ∃ s', TicketStore.saveEdit instanceofError ticket s = (Returned tt, s') ∧
            TicketStore.editingTicketId (TicketStore.cells s') = None ∧
            (is_Some (TicketStore.regroup
                        (TicketStore.updated_rows (TicketStore.id ticket)
                           (TicketStore.editingTitle c) (TicketStore.editingContent c)
                           (TicketStore.tickets c))) →
             ∃ later,
               log (TicketStore.outside s')
                 = log (TicketStore.outside s)
                   ++ UpdateTicket (TicketStore.id ticket) (TicketStore.editingTitle c)
                                   (Some (TicketStore.editingContent c)) :: later)) ∧
     (TicketStore.editingTicketId c ≠ Some (TicketStore.id ticket) →
      TicketStore.saveEdit instanceofError ticket s = (Returned tt, s))).
Proof.
  split.
  - intros w ticket Hactive Htitle Hcontent.
    assert (Hrun : saveEdit ticket w
                   = (Returned tt, set_view (set_editingTicketId None (view w)) w)).
    { unfold saveEdit, bind, read. rewrite Hactive. simpl.
      rewrite decide_False; [done|]. intros [Hne|Hne]; congruence. }
    split; [exact Hrun|]. unfold after. by rewrite Hrun.
  - intros instanceofError s ticket c. subst c. split.
    + intros Hedit.
      unfold TicketStore.saveEdit, TicketStore.and_then at 1, TicketStore.get.
      rewrite decide_True by done. unfold TicketStore.and_then.
      destruct (TicketStore.regroup
                  (TicketStore.updated_rows (TicketStore.id ticket)
                     (TicketStore.editingTitle (TicketStore.cells s))
                     (TicketStore.editingContent (TicketStore.cells s))
                     (TicketStore.tickets (TicketStore.cells s))))
        as [byColumn|] eqn:Hgroup.
      * destruct (decide (goes_through (network (TicketStore.outside s)))) as [Hok|Hko].
        -- destruct (store_updateTicket_goes_through instanceofError s _ _ _ _ Hgroup Hok)
             as (s1 & Hrun & Hcells & Hlog).
           rewrite Hrun. eexists. split; [reflexivity|]. simpl.
           split; [done|]. intros _. exists []. exact Hlog.
        -- destruct (network (TicketStore.outside s)) as [|[msg|] rest] eqn:Hnet;
             simpl in Hko; try done.
           rewrite (store_updateTicket_fails instanceofError s _ _ _ _ msg rest Hgroup Hnet).
           destruct (store_refreshTickets_run instanceofError
                       (TicketStore.before_reload s (TicketStore.id ticket)
                          (TicketStore.editingTitle (TicketStore.cells s))
                          (TicketStore.editingContent (TicketStore.cells s))
                          byColumn msg))
             as (e & s1 & Hrun & _ & _ & _ & Hlog & _).
           rewrite Hrun. eexists. split; [reflexivity|]. simpl.
           split; [done|]. intros _. exists [SelectTickets].
           rewrite Hlog. simpl. by rewrite <- app_assoc.
      * unfold TicketStore.updateTicket, TicketStore.attempt,
          TicketStore.and_then at 1, TicketStore.get.
        unfold TicketStore.updated_rows in Hgroup. rewrite Hgroup.
        unfold TicketStore.fail, TicketStore.and_then, TicketStore.modify.
        match goal with |- context [TicketStore.refreshTickets _ ?x] =>
          destruct (store_refreshTickets_run instanceofError x) as (e & s1 & Hrun & _)
        end.
        rewrite Hrun. eexists. split; [reflexivity|]. simpl.
        split; [done|]. by intros [? [=]].
    + intros Hother.
      unfold TicketStore.saveEdit, TicketStore.and_then, TicketStore.get.
      by rewrite decide_False.
Qed.

(** On the page, "Pairing" is opened and left as it is: nothing is sent,
    although the network is down.  In the store module, the new row is
    opened and left as it is: its update is sent. *)
Lemma saveEdit_unchanged_witness :
  log (after (saveEdit pairing) untouched_edit) = [] ∧
  editingTicketId (view (after (saveEdit pairing) untouched_edit)) = None ∧
  ∃ s' later,
    TicketStore.saveEdit any_Error draft drafting_store = (Returned tt, s') ∧
    log (TicketStore.outside s')
      = log (TicketStore.outside drafting_store)
        ++ UpdateTicket "temp-1700000000001" "New ticket" (Some "") :: later.
Proof.
  destruct saveEdit_unchanged as [Hpage Hstore].
  destruct (Hpage untouched_edit pairing) as (_ & Hlog & _ & _ & Hid);
    [reflexivity|reflexivity|reflexivity|].
  split; [exact Hlog|]. split; [exact Hid|].
  destruct (Hstore any_Error drafting_store draft) as [Hediting _].
  destruct Hediting as (s' & Hrun & _ & Hsent); [reflexivity|].
  destruct Hsent as (later & Hsent); [by eexists|].
  exists s', later. split; [exact Hrun|exact Hsent].
Defined.

(** C3 as stated fails for [saveEdit] of the store module.  The module has
    added a ticket to "Ideas" and the new row has been opened: the editing
    title and content are the row's own.  [saveEdit] on it, with nothing
    typed, sends an update all the same, and the regrouping of the empty
    [tickets] store leaves no bucket at all. *)
Lemma store_saveEdit_unchanged_writes :
  TicketStore.ticketsByColumn (TicketStore.cells drafting_store) !! "Ideas" = Some [draft] ∧
  TicketStore.editingTicketId (TicketStore.cells drafting_store)
    = Some (TicketStore.id draft) ∧
  TicketStore.editingTitle (TicketStore.cells drafting_store) = TicketStore.title draft ∧
  TicketStore.editingContent (TicketStore.cells drafting_store)
    = or_else (TicketStore.content draft) "" ∧
  (TicketStore.saveEdit any_Error draft drafting_store).1 = Returned tt ∧
  log (TicketStore.outside (TicketStore.saveEdit any_Error draft drafting_store).2)
    = log (TicketStore.outside drafting_store)
      ++ [UpdateTicket "temp-1700000000001" "New ticket" (Some "")] ∧
  TicketStore.ticketsByColumn
    (TicketStore.cells (TicketStore.saveEdit any_Error draft drafting_store).2) = ∅ ∧
  TicketStore.editingTicketId
    (TicketStore.cells (TicketStore.saveEdit any_Error draft drafting_store).2) = None.
Proof. vm_compute. done. Qed.

(** Enter without shift commits, Escape discards without a request. *)
Lemma handleEditKeydown_enter (ticket : Ticket.t) :
  handleEditKeydown "Enter" false ticket = saveEdit ticket.
Proof. reflexivity. Qed.

Lemma handleEditKeydown_escape (w : World) (shiftKey : bool) (ticket : Ticket.t) :
  handleEditKeydown "Escape" shiftKey ticket w
    = (Returned tt, set_view (set_editingTicketId None (view w)) w).
Proof. reflexivity. Qed.

(** ** Removing a ticket *)

(** Without a bucket for the ticket's column the first statement throws and
    nothing has changed. *)
Lemma optimisticRemove_no_bucket (w : World) (ticket : Ticket.t) :
  ticketsByColumn (view w) !! Ticket.column ticket = None →
  optimisticRemove ticket w = (Thrown TypeError, w).
Proof. intros Hb. unfold optimisticRemove, bind, read. by rewrite Hb. Qed.

(** C10. The optimistic step of [removeTicket] rewrites the bucket keyed by
    [ticket.column] and nothing else: every other column has the bucket it
    had; the affected bucket keeps, in their relative order, exactly the
    tickets whose id is not the removed one; the rest of the world (the
    other fields of the view model, the hosted store, the log) is as
    before.  With a bucket for the column the step returns; without one it
    throws and nothing at all has changed. *)
Theorem optimisticRemove_frame (w : World) (ticket : Ticket.t) :
  ∃ r w',
    optimisticRemove ticket w = (r, w') ∧
    (∀ c, c ≠ Ticket.column ticket →
       ticketsByColumn (view w') !! c = ticketsByColumn (view w) !! c) ∧
    ticketsByColumn (view w') !! Ticket.column ticket
      = filter (λ t, Ticket.id t ≠ Ticket.id ticket)
          <$> ticketsByColumn (view w) !! Ticket.column ticket ∧
    (∀ bucket, ticketsByColumn (view w) !! Ticket.column ticket = Some bucket →
       r = Returned tt ∧
       (∀ t, t ∈ bucket → Ticket.id t ≠ Ticket.id ticket →
          t ∈ filter (λ t, Ticket.id t ≠ Ticket.id ticket) bucket) ∧
       (∀ t, t ∈ filter (λ t, Ticket.id t ≠ Ticket.id ticket) bucket →
          t ∈ bucket ∧ Ticket.id t ≠ Ticket.id ticket) ∧
       filter (λ t, Ticket.id t ≠ Ticket.id ticket) bucket `sublist_of` bucket) ∧
    w' = set_view (set_ticketsByColumn (ticketsByColumn (view w')) (view w)) w.
Proof.
  destruct (ticketsByColumn (view w) !! Ticket.column ticket) as [bucket|] eqn:Hb.
  - eexists _, _. split.
    { unfold optimisticRemove, bind, read. rewrite Hb. reflexivity. }
    simpl. split_and!.
    + intros c Hne. by rewrite lookup_insert_ne.
    + by rewrite lookup_insert_eq.
    + intros bucket' [= <-]. split_and!.
      * done.
      * intros t Hin Hid. apply list_elem_of_filter. by split.
      * intros t Hin. apply list_elem_of_filter in Hin. tauto.
      * apply sublist_filter.
    + done.
  - exists (Thrown TypeError), w. split; [by apply optimisticRemove_no_bucket|].
    rewrite Hb. simpl. split_and!; try done.
    by destruct w as [[] ? ? ? ? ? ?].
Qed.

(** Removing "Pairing" from the sample board. *)
Lemma optimisticRemove_frame_witness :
  ∃ w', optimisticRemove pairing (retro_world []) = (Returned tt, w') ∧
        ticketsByColumn (view w') !! "Good" = Some [demo_day] ∧
        ticketsByColumn (view w') !! "Bad" = Some [flaky_tests].
Proof.
  destruct (optimisticRemove_frame (retro_world []) pairing)
    as (r & w' & Hrun & Hother & Hown & Hkept & _).
  destruct (Hkept [pairing; demo_day]) as (-> & _); [reflexivity|].
  exists w'. split; [exact Hrun|]. split.
  - exact Hown.
  - rewrite (Hother "Bad"); [reflexivity|discriminate].
Defined.

(** [removeTicket] starts with that step; when the delete goes through, the
    view model is the one the step left. *)
Lemma removeTicket_goes_through (w w1 : World) (ticket : Ticket.t) :
  optimisticRemove ticket w = (Returned tt, w1) →
  goes_through (network w) →
  ∃ w2, removeTicket ticket w = (Returned tt, w2) ∧
        view w2 = view w1 ∧
        log w2 = log w ++ [DeleteTicket (Ticket.id ticket)].
Proof.
  intros Hstep Hnet. unfold removeTicket, bind at 1. rewrite Hstep.
  unfold optimisticRemove, bind, read in Hstep.
  destruct (ticketsByColumn (view w) !! Ticket.column ticket); [|discriminate].
  unfold update in Hstep. injection Hstep as <-.
  unfold bind, Supabase.delete_ticket.
  rewrite request_goes_through by done. simpl.
  eexists. split; [reflexivity|]. done.
Qed.

(** ** Adding a ticket *)






(** When the delete fails, [removeTicket] sets the flag and reloads, like
    [saveEdit]. *)
Lemma removeTicket_failure (w w1 : World) (ticket : Ticket.t) (msg : string)
    (rest : list (option string)) :
  optimisticRemove ticket w = (Returned tt, w1) →
  network w = Some msg :: rest →
  removeTicket ticket w
    = refreshTickets
        (mkWorld (set_error (Some msg) (view w1)) (db w) (window_defined w)
                 (localStorage w) (entropy w) rest
                 (log w ++ [DeleteTicket (Ticket.id ticket)])).
Proof.
  intros Hstep Hnet. unfold removeTicket, bind at 1. rewrite Hstep.
  unfold optimisticRemove, bind, read in Hstep.
  destruct (ticketsByColumn (view w) !! Ticket.column ticket); [|discriminate].
  unfold update in Hstep. injection Hstep as <-.
  unfold bind at 1, Supabase.delete_ticket.
  rewrite (request_fails _ _ _ msg rest) by done. simpl.
  unfold bind, update. reflexivity.
Qed.

(** ** Voter identity *)

Lemma call_times_stable {A} (c : Task A) (v : A) (w : World) (n : nat) :
  c w = (Returned v, w) →
  call_times n c w = (Returned (replicate n v), w).
Proof.
  intros Hc. induction n as [|n IH]; simpl; [done|].
  unfold bind at 1. rewrite Hc. unfold bind at 1. by rewrite IH.
Qed.

(** A stored, non-empty id is returned as it is; nothing is written. *)
Lemma getOrCreateVoterId_stored (w : World) (v : string) :
  localStorage w !! "voter_id" = Some v → v ≠ "" →
  getOrCreateVoterId w = (Returned v, w).
Proof.
  intros Hv Hne. apply truthy_spec in Hne.
  unfold getOrCreateVoterId, bind, getItem. rewrite Hv. simpl. by rewrite Hne.
Qed.

Lemma getCurrentVoterId_stored (w : World) (v : string) :
  window_defined w = true →
  localStorage w !! "voter_id" = Some v → v ≠ "" →
  getCurrentVoterId w = (Returned v, w).
Proof.
  intros Hwin Hv Hne. apply truthy_spec in Hne.
  unfold getCurrentVoterId, bind, getItem. rewrite Hwin, Hv. simpl.
  by rewrite Hne.
Qed.

(** Outside the browser the placeholder is returned and nothing is touched. *)
Lemma getCurrentVoterId_ssr (w : World) :
  window_defined w = false →
  getCurrentVoterId w = (Returned "ssr-placeholder", w).
Proof. intros Hwin. unfold getCurrentVoterId. by rewrite Hwin. Qed.

(** C7. In a profile that holds no voter id, the first call of the getter
    generates a UUID, stores it under the key [voter_id] and returns it;
    any number of further calls return that stored value and leave the
    storage, and the whole world, as the first call left it.  This holds for
    [getOrCreateVoterId] and, in the browser, for the page's
    [getCurrentVoterId]. *)
Theorem voter_id_created_once (w : World) (n : nat) :
  localStorage w !! "voter_id" = None →
  let u := uuid_string (hd 0%N (entropy w)) in
  let w1 := profile_with u w in
  localStorage w1 !! "voter_id" = Some u ∧
  getOrCreateVoterId w = (Returned u, w1) ∧
  call_times n getOrCreateVoterId w1 = (Returned (replicate n u), w1) ∧
  (window_defined w = true →
     getCurrentVoterId w = (Returned u, w1) ∧
     call_times n getCurrentVoterId w1 = (Returned (replicate n u), w1)).
Proof.
  intros Hnone u w1.
  assert (Hstored : localStorage w1 !! "voter_id" = Some u).
  { subst w1. unfold profile_with. simpl. by rewrite lookup_insert_eq. }
  assert (Hu : u ≠ "").
  { apply truthy_spec. apply uuid_string_truthy. }
  split; [exact Hstored|]. split; [|split].
  - unfold getOrCreateVoterId, bind, getItem. rewrite Hnone. reflexivity.
  - apply call_times_stable. by apply getOrCreateVoterId_stored.
  - intros Hwin. split.
    + unfold getCurrentVoterId, bind, getItem. rewrite Hwin, Hnone. reflexivity.
    + apply call_times_stable. by apply getCurrentVoterId_stored.
Qed.

(** Three calls in a new profile: one UUID, three times. *)
Lemma voter_id_created_once_witness :
  localStorage new_profile !! "voter_id" = None ∧
  call_times 3 getCurrentVoterId new_profile
    = (Returned (replicate 3 "00000000-0000-4000-8000-00000000002a"),
       profile_with "00000000-0000-4000-8000-00000000002a" new_profile).
Proof.
  split; [reflexivity|].
  destruct (voter_id_created_once new_profile 2) as (_ & _ & _ & Hpage);
    [reflexivity|].
  destruct Hpage as [Hfirst Hnext]; [reflexivity|].
  change (call_times 3 getCurrentVoterId new_profile)
    with (bind getCurrentVoterId
            (λ x, bind (call_times 2 getCurrentVoterId) (λ xs, ret (x :: xs)))
            new_profile).
  unfold bind at 1. rewrite Hfirst. unfold bind at 1. rewrite Hnext. reflexivity.
Defined.

(** ** Reloading after a failed write *)

Lemma saveEdit_update_fails (w : World) (ticket : Ticket.t)
    (bucket : list Ticket.t) (msg : string) (rest : list (option string)) :
  truthy_opt (editingTicketId (view w)) = true →
  editingTitle (view w) ≠ Ticket.title ticket
    ∨ editingContent (view w) ≠ Some (or_else (Ticket.content ticket) "") →
  ticketsByColumn (view w) !! Ticket.column ticket = Some bucket →
  network w = Some msg :: rest →
  saveEdit ticket w = refreshTickets (before_reload w ticket bucket msg).
Proof.
  intros Hactive Hchanged Hbucket Hnet.
  unfold saveEdit, bind at 1, read. rewrite Hactive. simpl.
  rewrite decide_True by done.
  unfold bind at 1, optimisticUpdate, bind at 1, read. rewrite Hbucket.
  unfold update at 1. unfold bind at 1, update at 1.
  unfold bind at 1, Supabase.update_ticket.
  rewrite (request_fails _ _ _ msg rest) by done. simpl.
  unfold bind at 1, update at 1. unfold before_reload, edited_bucket.
  by rewrite Hnet.
Qed.

(** C4, as the code has it.  When the update issued by [saveEdit] of the
    page fails with message [msg], the controller sets the error flag to
    [msg] and then reloads: a read of the tickets is the next request after
    the update, and the hosted rows are untouched.  If that read goes through
    and the hosted rows are groupable, the buckets become the hosted rows
    partitioned by column, so the optimistic change is discarded, and the
    flag still holds [msg].  If the read fails too, the flag holds the
    read's message and the optimistic change stays in the view.
    [updateTicket] of the store module, its regrouping of [tickets] having
    got through: when the update fails with [msg], the error store is set to
    [msg] and the module's reload is started, which sends a read of the
    tickets as the next request. *)
Theorem saveEdit_failure_reloads :
  (∀ (w : World) (ticket : Ticket.t) (bucket : list Ticket.t) (msg : string)
     (rest : list (option string)),
     truthy_opt (editingTicketId (view w)) = true →
     editingTitle (view w) ≠ Ticket.title ticket
       ∨ editingContent (view w) ≠ Some (or_else (Ticket.content ticket) "") →
     ticketsByColumn (view w) !! Ticket.column ticket = Some bucket →
     network w = Some msg :: rest →
     let w1 := before_reload w ticket bucket msg in
     ∃ w',
       saveEdit ticket w = refreshTickets w1 ∧
       refreshTickets w1 = (Returned tt, w') ∧
       error (view w1) = Some msg ∧
       ticketsByColumn (view w1) !! Ticket.column ticket
         = Some (edited_bucket (view w) ticket bucket) ∧
       log w' = log w ++ [UpdateTicket (Ticket.id ticket) (editingTitle (view w))
                                       (editingContent (view w));
                          SelectTickets] ∧
       db w' = db w ∧
       editingTicketId (view w') = None ∧
       (goes_through rest → groupable (tickets_table (db w)) →
          ticketsByColumn (view w') = authoritative (db w) ∧
          error (view w') = Some msg) ∧
       (∀ msg' rest', rest = Some msg' :: rest' →
          ticketsByColumn (view w') = ticketsByColumn (view w1) ∧
          error (view w') = Some (or_else (Some msg') "Failed to load tickets."))) ∧
  (∀ (instanceofError : Exn → bool) (s : TicketStore.Store)
     (ticketId newTitle newContent : string)
     (byColumn : gmap string (list TicketStore.Row))
     (msg : string) (rest : list (option string)),
     TicketStore.regroup
       (TicketStore.updated_rows ticketId newTitle newContent
          (TicketStore.tickets (TicketStore.cells s))) = Some byColumn →
     network (TicketStore.outside s) = Some msg :: rest →
     let s1 := TicketStore.before_reload s ticketId newTitle newContent byColumn msg in
     ∃ s',
       TicketStore.updateTicket instanceofError ticketId newTitle newContent s
         = TicketStore.refreshTickets instanceofError s1 ∧
       TicketStore.refreshTickets instanceofError s1 = (Returned tt, s') ∧
       TicketStore.error (TicketStore.cells s1) = Some msg ∧
       TicketStore.ticketsByColumn (TicketStore.cells s1) = byColumn ∧
       log (TicketStore.outside s')
         = log (TicketStore.outside s)
           ++ [UpdateTicket ticketId newTitle (Some newContent); SelectTickets] ∧
       db (TicketStore.outside s') = db (TicketStore.outside s)).
Proof.
  split.
  - intros w ticket bucket msg rest Hactive Hchanged Hbucket Hnet w1.
    pose proof (saveEdit_update_fails w ticket bucket msg rest
                  Hactive Hchanged Hbucket Hnet) as Hrun.
    assert (Hnet1 : network w1 = rest) by (subst w1; simpl; by rewrite Hnet).
    assert (Hreload : ∃ w', refreshTickets w1 = (Returned tt, w') ∧
              db w' = db w ∧ log w' = log w1 ++ [SelectTickets] ∧
              editingTicketId (view w') = None ∧
              (goes_through rest → groupable (tickets_table (db w)) →
                 ticketsByColumn (view w') = authoritative (db w) ∧
                 error (view w') = Some msg) ∧
              (∀ msg' rest', rest = Some msg' :: rest' →
                 ticketsByColumn (view w') = ticketsByColumn (view w1) ∧
                 error (view w')
                   = Some (or_else (Some msg') "Failed to load tickets."))).
    { destruct (decide (goes_through rest)) as [Hok|Hko].
      - destruct (decide (groupable (tickets_table (db w)))) as [Hplain|Hodd].
        + destruct (refreshTickets_goes_through w1)
            as (w' & Hre & Hview & Hdb & _ & Hlog); [by rewrite Hnet1|done|].
          exists w'. rewrite Hview, Hdb. split_and!; try done.
          intros msg2 rest2 ->. done.
        + destruct (refreshTickets_not_groupable w1)
            as (w' & Hre & Hview & Hdb & _ & Hlog); [by rewrite Hnet1|done|].
          exists w'. rewrite Hview, Hdb. split_and!; try done.
          intros msg2 rest2 ->. done.
      - destruct rest as [|[msg'|] rest']; simpl in Hko; try done.
        destruct (refreshTickets_fails w1 msg' rest')
          as (w' & Hre & Hview & Hdb & _ & Hlog); [done|].
        exists w'. rewrite Hview, Hdb. split_and!; try done.
        intros msg2 rest2 [= <- <-]. done. }
    destruct Hreload as (w' & Hre & Hdb & Hlog & Hedit & Hok & Hko).
    exists w'. split_and!; try done.
    + subst w1. simpl. by rewrite lookup_insert_eq.
    + rewrite Hlog. subst w1. simpl. by rewrite <- app_assoc.
  - intros instanceofError s ticketId newTitle newContent byColumn msg rest
      Hgroup Hnet s1.
    destruct (store_refreshTickets_run instanceofError s1)
      as (e & s' & Hrun & _ & _ & Hdb & Hlog & _).
    exists s'. split_and!; try done.
    + by apply (store_updateTicket_fails instanceofError s _ _ _ _ msg rest).
    + rewrite Hlog. subst s1. simpl. by rewrite <- app_assoc.
Qed.

(** On the page the update fails and the reload goes through: the retitled
    card is replaced by the hosted one.  In the store module the update of
    the new row fails: the flag is set and the read follows. *)
Lemma saveEdit_failure_reloads_witness :
  (∃ w', saveEdit pairing (retitling_world [Some "update failed"]) = (Returned tt, w') ∧
         error (view w') = Some "update failed" ∧
         ticketsByColumn (view w') = authoritative retro_store ∧
         log w' = [UpdateTicket "t1" "Pair programming" (Some "details"); SelectTickets]) ∧
  (∃ s1 s',
     TicketStore.updateTicket any_Error "t1" "Pair programming" "details"
       (fresh_store [Some "update failed"])
       = TicketStore.refreshTickets any_Error s1 ∧
     TicketStore.refreshTickets any_Error s1 = (Returned tt, s') ∧
     TicketStore.error (TicketStore.cells s1) = Some "update failed" ∧
     log (TicketStore.outside s')
       = [UpdateTicket "t1" "Pair programming" (Some "details"); SelectTickets]).
Proof.
  destruct saveEdit_failure_reloads as [Hpage Hstore]. split.
  - destruct (Hpage (retitling_world [Some "update failed"]) pairing
                [pairing; demo_day] "update failed" [])
      as (w' & Hrun & Hre & _ & _ & Hlog & _ & _ & Hok & _).
    + reflexivity.
    + left. discriminate.
    + reflexivity.
    + reflexivity.
    + destruct Hok as [Htbc Herr]; [exact I|repeat constructor|].
      exists w'. rewrite Hrun. split; [exact Hre|]. split; [exact Herr|].
      split; [exact Htbc|exact Hlog].
  - destruct (Hstore any_Error (fresh_store [Some "update failed"])
                "t1" "Pair programming" "details" ∅ "update failed" [])
      as (s' & Hrun & Hre & Herr & _ & Hlog & _).
    + reflexivity.
    + reflexivity.
    + eexists _, s'. split; [exact Hrun|]. split; [exact Hre|].
      split; [exact Herr|exact Hlog].
Defined.

(** C4 as stated fails when the reload's own read fails, as it does while the
    network is down.  Ann retitles "Pairing", the update fails with "update
    failed", the read that follows fails with "offline": [saveEdit] returns,
    both requests were sent, but the error flag holds "offline" and not the
    update's message, and the bucket still shows the new title although the
    hosted row has the old one. *)
Lemma saveEdit_failed_reload_keeps_change :
  (saveEdit pairing (retitling_world [Some "update failed"; Some "offline"])).1 = Returned tt ∧
  log (after (saveEdit pairing) (retitling_world [Some "update failed"; Some "offline"]))
    = [UpdateTicket "t1" "Pair programming" (Some "details"); SelectTickets] ∧
  error (view (after (saveEdit pairing) (retitling_world [Some "update failed"; Some "offline"])))
    = Some "offline" ∧
  ticketsByColumn (view (after (saveEdit pairing) (retitling_world [Some "update failed"; Some "offline"]))) !! "Good"
    = Some [card "t1" "Pair programming" "Good" 1; demo_day] ∧
  tickets_table (db (after (saveEdit pairing) (retitling_world [Some "update failed"; Some "offline"])))
    = [pairing; flaky_tests; demo_day].
Proof. vm_compute. done. Qed.

(** In the store module the reload that follows a failed update installs
    nothing even when its read goes through: the read is sent, [data.forEach]
    throws, the error store ends with that message instead of the update's,
    and the buckets are the regrouped [tickets], not the hosted rows. *)
Lemma store_failed_update_not_reloaded :
  (TicketStore.updateTicket any_Error "temp-1700000000001" "Retitled" ""
     (drafting_store_facing [Some "update failed"])).1 = Returned tt ∧
  log (TicketStore.outside
         (TicketStore.updateTicket any_Error "temp-1700000000001" "Retitled" ""
            (drafting_store_facing [Some "update failed"])).2)
    = [UpdateTicket "temp-1700000000001" "Retitled" (Some ""); SelectTickets] ∧
  TicketStore.error
    (TicketStore.cells
       (TicketStore.updateTicket any_Error "temp-1700000000001" "Retitled" ""
          (drafting_store_facing [Some "update failed"])).2)
    = Some (message (not_a_function "data.forEach")) ∧
  TicketStore.ticketsByColumn
    (TicketStore.cells
       (TicketStore.updateTicket any_Error "temp-1700000000001" "Retitled" ""
          (drafting_store_facing [Some "update failed"])).2) = ∅ ∧
  TicketStore.tickets
    (TicketStore.cells
       (TicketStore.updateTicket any_Error "temp-1700000000001" "Retitled" ""
          (drafting_store_facing [Some "update failed"])).2) = [].
Proof. vm_compute. done. Qed.

(** ** Bootstrap *)

(** When both reads go through and the hosted rows are groupable, the page
    shows the hosted tickets and votes. *)
Lemma onMount_loads (w : World) :
  goes_through (network w) → goes_through (tail (network w)) →
  groupable (tickets_table (db w)) →
  ∃ w', onMount w = (Returned tt, w') ∧
        ticketsByColumn (view w') = authoritative (db w) ∧
        votes (view w') = votes_table (db w) ∧
        loading (view w') = false ∧
        error (view w') = error (view w) ∧
        log w' = log w ++ [SelectTickets; SelectVotes].
Proof.
  intros Hfirst Hsecond Hplain.
  destruct (refreshTickets_goes_through w Hfirst Hplain)
    as (w1 & Hrun1 & Hview1 & Hdb1 & Hnet1 & Hlog1).
  unfold onMount, bind. rewrite Hrun1.
  unfold loadVotes, try_catch, fetchVotes, bind, Supabase.select_votes.
  rewrite request_goes_through by (by rewrite Hnet1). simpl.
  eexists. split; [reflexivity|]. simpl.
  rewrite Hview1, Hdb1, Hlog1, <- app_assoc. done.
Qed.

(** ** Vote toggle *)

Lemma existsb_votesOf (ticket_id voter_id : string) (l : list Vote.t) :
  existsb (λ v, bool_decide (Vote.ticket_id v = ticket_id
                             ∧ Vote.voter_id v = voter_id)) l
    = bool_decide (votesOf ticket_id voter_id l ≠ []).
Proof.
  unfold votesOf. induction l as [|v l IH]; simpl; [done|].
  rewrite filter_cons.
  destruct (decide (Vote.ticket_id v = ticket_id ∧ Vote.voter_id v = voter_id))
    as [Hv|Hv].
  - rewrite (bool_decide_true _ Hv). done.
  - rewrite (bool_decide_false _ Hv). simpl. exact IH.
Qed.

Lemma votesOf_after_delete (ticket_id voter_id : string) (l : list Vote.t) :
  votesOf ticket_id voter_id
    (filter (λ v, ¬ (Vote.ticket_id v = ticket_id ∧ Vote.voter_id v = voter_id)) l)
    = [].
Proof.
  unfold votesOf. induction l as [|v l IH]; [done|].
  rewrite filter_cons. case_decide as Hv; [|exact IH].
  rewrite filter_cons. by rewrite decide_False.
Qed.

Lemma votesOf_other_after_delete (ticket_id voter_id t v : string) (l : list Vote.t) :
  (t, v) ≠ (ticket_id, voter_id) →
  votesOf t v
    (filter (λ x, ¬ (Vote.ticket_id x = ticket_id ∧ Vote.voter_id x = voter_id)) l)
    = votesOf t v l.
Proof.
  intros Hne. unfold votesOf. rewrite list_filter_filter.
  apply list_filter_iff. intros x. split; [tauto|].
  intros [Ht Hv]. split; [done|]. intros [Ht' Hv']. congruence.
Qed.

Lemma votesOf_other_after_insert (ticket_id voter_id t v i : string) (l : list Vote.t) :
  (t, v) ≠ (ticket_id, voter_id) →
  votesOf t v (l ++ [Vote.mk i ticket_id voter_id]) = votesOf t v l.
Proof.
  intros Hne. unfold votesOf. rewrite filter_app, filter_cons, filter_nil. simpl.
  rewrite decide_False; [by rewrite app_nil_r|]. intros [Ht Hv]. congruence.
Qed.

(** The getter is settled after one call: asked again, it gives the same id
    and changes nothing.  It never touches the view, the store, the network
    or the log. *)
Lemma getCurrentVoterId_settled (w : World) :
  ∃ voterId w0,
    getCurrentVoterId w = (Returned voterId, w0) ∧
    getCurrentVoterId w0 = (Returned voterId, w0) ∧
    view w0 = view w ∧ db w0 = db w ∧ network w0 = network w ∧ log w0 = log w.
Proof.
  destruct (window_defined w) eqn:Hwin.
  - assert (Hfresh : ∃ w0, w0 = profile_with (uuid_string (hd 0%N (entropy w))) w)
      by eauto.
    destruct Hfresh as (w0 & Hw0).
    assert (Hagain : getCurrentVoterId w0
                     = (Returned (uuid_string (hd 0%N (entropy w))), w0)).
    { apply getCurrentVoterId_stored.
      - by subst w0.
      - subst w0. unfold profile_with. simpl. by rewrite lookup_insert_eq.
      - apply truthy_spec, uuid_string_truthy. }
    destruct (localStorage w !! "voter_id") as [v|] eqn:Hv.
    + destruct (truthy v) eqn:Htruthy.
      * exists v, w. apply truthy_spec in Htruthy.
        rewrite (getCurrentVoterId_stored w v) by done. done.
      * exists (uuid_string (hd 0%N (entropy w))), w0.
        split; [|split; [exact Hagain|by subst w0]].
        unfold getCurrentVoterId, bind, getItem. rewrite Hwin, Hv. simpl.
        rewrite Htruthy. by subst w0.
    + exists (uuid_string (hd 0%N (entropy w))), w0.
      split; [|split; [exact Hagain|by subst w0]].
      unfold getCurrentVoterId, bind, getItem. rewrite Hwin, Hv. by subst w0.
  - exists "ssr-placeholder", w. by rewrite getCurrentVoterId_ssr.
Qed.

(** [loadVotes] always returns; when its read goes through, the list in
    the view is the hosted list. *)
Lemma loadVotes_returns (w : World) :
  ∃ w', loadVotes w = (Returned tt, w') ∧
        db w' = db w ∧
        (goes_through (network w) → votes (view w') = votes_table (db w)) ∧
        (¬ goes_through (network w) → votes (view w') = votes (view w)).
Proof.
  unfold loadVotes, try_catch, fetchVotes, bind, Supabase.select_votes.
  destruct (decide (goes_through (network w))) as [Hok|Hko].
  - rewrite request_goes_through by done. simpl.
    eexists. split; [reflexivity|]. done.
  - destruct (network w) as [|[msg|] rest] eqn:Hnet; simpl in Hko; try done.
    rewrite (request_fails _ _ _ msg rest) by done. simpl.
    eexists. split; [reflexivity|]. done.
Qed.

(** C1, as the code has it.  [toggleVote] always returns.  When the write
    it issues goes through, then in the hosted collection: if the in-memory
    list shows a vote of the voter on the ticket, no vote of that voter on
    that ticket remains (all matching rows are deleted); if it shows none
    and the hosted collection holds none either, exactly one exists; votes
    of other pairs are as before; and when the reload that follows goes
    through, the in-memory list is the hosted list.  When the write fails,
    the hosted rows and the in-memory list are as before and the error flag
    holds the failure's message. *)
Theorem toggleVote_complement (w w0 : World) (ticket : Ticket.t) (voterId : string) :
  getCurrentVoterId w = (Returned voterId, w0) →
  ∃ w',
    toggleVote ticket w = (Returned tt, w') ∧
    (goes_through (network w) →
       (votesOf (Ticket.id ticket) voterId (votes (view w)) ≠ [] →
          votesOf (Ticket.id ticket) voterId (votes_table (db w')) = []) ∧
       (votesOf (Ticket.id ticket) voterId (votes (view w)) = [] →
        votesOf (Ticket.id ticket) voterId (votes_table (db w)) = [] →
          length (votesOf (Ticket.id ticket) voterId (votes_table (db w'))) = 1%nat) ∧
       (∀ t v, (t, v) ≠ (Ticket.id ticket, voterId) →
          votesOf t v (votes_table (db w')) = votesOf t v (votes_table (db w))) ∧
       (goes_through (tail (network w)) → votes (view w') = votes_table (db w'))) ∧
    (∀ msg rest, network w = Some msg :: rest →
       votes_table (db w') = votes_table (db w) ∧
       votes (view w') = votes (view w) ∧
       error (view w')
         = Some (or_else (Some msg)
                   (if decide (votesOf (Ticket.id ticket) voterId (votes (view w)) = [])
                    then "Failed to add vote." else "Failed to remove vote."))).
Proof.
  intros Hid.
  destruct (getCurrentVoterId_settled w)
    as (voterId' & w0' & Hid' & Hagain & Hview & Hdb & Hnet0 & Hlog).
  rewrite Hid in Hid'. injection Hid' as <- <-.
  unfold toggleVote, bind at 1. rewrite Hid.
  unfold bind at 1, hasVoted, bind at 1. rewrite Hagain.
  unfold bind at 1, read, ret. rewrite existsb_votesOf, Hview.
  destruct (decide (goes_through (network w))) as [Hnet|Hnet].
  - (* the write goes through *)
    destruct (decide (votesOf (Ticket.id ticket) voterId (votes (view w)) ≠ []))
      as [Hvoted|Hnone].
    + rewrite bool_decide_true by done.
      unfold try_catch, bind at 1, removeVote, bind at 1, Supabase.delete_votes.
      rewrite request_goes_through by (by rewrite Hnet0). simpl.
      match goal with |- context [loadVotes ?x] =>
        destruct (loadVotes_returns x) as (w' & Hload & Hdb' & Hok & _) end.
      rewrite Hload. exists w'. split; [done|].
      simpl in Hdb', Hok. rewrite Hdb', Hdb, Hnet0 in *. simpl.
      split.
      * intros _. split_and!; try done.
        -- intros _. apply votesOf_after_delete.
        -- intros t v Hne. by apply votesOf_other_after_delete.
      * intros msg rest Hfail. by rewrite Hfail in Hnet.
    + apply dec_stable in Hnone. rewrite bool_decide_false by (by intros []).
      unfold try_catch, bind at 1, addVote, bind at 1, Supabase.insert_vote.
      rewrite request_goes_through by (by rewrite Hnet0). simpl.
      match goal with |- context [loadVotes ?x] =>
        destruct (loadVotes_returns x) as (w' & Hload & Hdb' & Hok & _) end.
      rewrite Hload. exists w'. split; [done|].
      simpl in Hdb', Hok. rewrite Hdb', Hdb, Hnet0 in *. simpl.
      split.
      * intros _. split_and!; try done.
        -- intros _ Hstore. unfold votesOf in *. rewrite filter_app, Hstore.
           rewrite filter_cons, filter_nil. simpl. by rewrite decide_True.
        -- intros t v Hne. by apply votesOf_other_after_insert.
      * intros msg rest Hfail. by rewrite Hfail in Hnet.
  - (* the write fails *)
    destruct (network w) as [|[msg|] rest] eqn:Hnetw; simpl in Hnet; try done.
    destruct (decide (votesOf (Ticket.id ticket) voterId (votes (view w)) = []))
      as [Hnone|Hvoted].
    + rewrite bool_decide_false by (by intros []).
      unfold try_catch, bind at 1, addVote, bind at 1, Supabase.insert_vote.
      rewrite (request_fails _ _ _ msg rest) by (by rewrite Hnet0). simpl.
      eexists. split; [reflexivity|]. simpl. rewrite Hview, Hdb.
      split; [done|]. intros msg' rest' [= <- <-]. done.
    + rewrite bool_decide_true by done.
      unfold try_catch, bind at 1, removeVote, bind at 1, Supabase.delete_votes.
      rewrite (request_fails _ _ _ msg rest) by (by rewrite Hnet0). simpl.
      eexists. split; [reflexivity|]. simpl. rewrite Hview, Hdb.
      split; [done|]. intros msg' rest' [= <- <-]. done.
Qed.

(** Ann takes back her vote on "Pairing". *)
Lemma toggleVote_complement_witness :
  ∃ w', toggleVote pairing (retro_world []) = (Returned tt, w') ∧
        votesOf "t1" "ann" (votes_table (db w')) = [] ∧
        votes (view w') = votes_table (db w').
Proof.
  destruct (toggleVote_complement (retro_world []) (retro_world []) pairing "ann")
    as (w' & Hrun & Hdone & _).
  - reflexivity.
  - destruct Hdone as (Hvoted & _ & _ & Hsync); [exact I|].
    exists w'. split; [exact Hrun|]. split.
    + apply Hvoted. discriminate.
    + apply Hsync. exact I.
Defined.

(** C1 as stated fails in two ways.  When the write fails: Ann has one vote
    on "Pairing", in the view and in the store; the delete fails;
    [toggleVote] returns, and her vote is still there, in the store and in
    the view, with the error flag set.  When the in-memory list is behind
    the store: Ann's vote on "Pairing" is hosted but the list of this tab
    does not show it; every request goes through; [toggleVote] inserts, and
    two votes of hers on "Pairing" are hosted, which the reloaded list
    shows. *)
Lemma toggleVote_failed_write_keeps_vote :
  ((toggleVote pairing (retro_world [Some "remove failed"])).1 = Returned tt ∧
   votesOf "t1" "ann" (votes (view (retro_world [Some "remove failed"])))
     = [Vote.mk "v1" "t1" "ann"] ∧
   votesOf "t1" "ann"
     (votes_table (db (after (toggleVote pairing) (retro_world [Some "remove failed"]))))
     = [Vote.mk "v1" "t1" "ann"] ∧
   votesOf "t1" "ann"
     (votes (view (after (toggleVote pairing) (retro_world [Some "remove failed"]))))
     = [Vote.mk "v1" "t1" "ann"] ∧
   error (view (after (toggleVote pairing) (retro_world [Some "remove failed"])))
     = Some "remove failed") ∧
  ((toggleVote pairing (stale_world [])).1 = Returned tt ∧
   votesOf "t1" "ann" (votes (view (stale_world []))) = [] ∧
   votesOf "t1" "ann" (votes_table (db (stale_world []))) = [Vote.mk "v1" "t1" "ann"] ∧
   log (after (toggleVote pairing) (stale_world [])) = [InsertVote "t1" "ann"; SelectVotes] ∧
   length (votesOf "t1" "ann"
             (votes_table (db (after (toggleVote pairing) (stale_world []))))) = 2%nat ∧
   length (votesOf "t1" "ann"
             (votes (view (after (toggleVote pairing) (stale_world []))))) = 2%nat ∧
   error (view (after (toggleVote pairing) (stale_world []))) = None).
Proof. vm_compute. done. Qed.

(** ** Environment values *)

Lemma strip_from_quote_free (s : string) :
  quote_free s → strip_from false s = s.
Proof.
  induction s as [|c rest IH]; simpl; [done|].
  intros [Hc Hrest].
  destruct (Ascii.eqb_spec c dquote) as [->|_]; [done|]. simpl.
  destruct rest as [|c' rest']; [done|].
  destruct Hrest as [Hc' Hrest'].
  destruct (Ascii.eqb_spec c' dquote) as [->|_]; [done|].
  rewrite andb_false_r. f_equal. apply IH. by split.
Qed.

(** X1. A value without double quotes passes the cleaning unchanged. *)
Theorem stripQuotes_quote_free (s : string) :
  quote_free s → stripQuotes s = s.
Proof.
  intros Hs. unfold stripQuotes. destruct s as [|c rest]; [done|].
  destruct Hs as [Hc Hrest]. simpl.
  destruct (Ascii.eqb_spec c dquote) as [->|_]; [done|]. simpl.
  destruct rest as [|c' rest']; [done|].
  destruct Hrest as [Hc' Hrest'].
  destruct (Ascii.eqb_spec c' dquote) as [->|_]; [done|].
  rewrite andb_false_r. f_equal. apply strip_from_quote_free. by split.
Qed.

Lemma project_url_quote_free : quote_free project_url.
Proof. cbn. repeat split; discriminate. Qed.

Lemma stripQuotes_quote_free_witness : stripQuotes project_url = project_url.
Proof. apply (stripQuotes_quote_free project_url), project_url_quote_free. Defined.

Lemma string_app_assoc (a b c : string) : (a +:+ b) +:+ c = a +:+ (b +:+ c).
Proof.
  induction a as [|x a IH]; [done|].
  change (String x ((a +:+ b) +:+ c) = String x (a +:+ (b +:+ c))).
  by rewrite IH.
Qed.

Lemma strip_from_closing (s : string) :
  quote_free s → ends_with_slash s = false →
  strip_from false (s +:+ String dquote EmptyString) = s.
Proof.
  induction s as [|c rest IH]; [done|].
  intros [Hc Hrest] Hslash. simpl.
  destruct (Ascii.eqb_spec c dquote) as [->|_]; [done|]. simpl.
  destruct rest as [|c' rest']; simpl in *.
  - by rewrite Hslash.
  - destruct Hrest as [Hc' Hrest'].
    destruct (Ascii.eqb_spec c' dquote) as [->|_]; [done|].
    rewrite andb_false_r. f_equal. apply IH; [by split|done].
Qed.

Lemma strip_from_closing_slash (s : string) :
  quote_free s →
  strip_from false (s +:+ String "/" (String dquote EmptyString)) = s.
Proof.
  induction s as [|c rest IH]; [done|].
  intros [Hc Hrest]. simpl.
  destruct (Ascii.eqb_spec c dquote) as [->|_]; [done|]. simpl.
  destruct rest as [|c' rest']; simpl in *.
  - rewrite andb_false_r. done.
  - destruct Hrest as [Hc' Hrest'].
    destruct (Ascii.eqb_spec c' dquote) as [->|_]; [done|].
    rewrite andb_false_r. f_equal. apply IH. by split.
Qed.

(** X2. A value wrapped in one pair of double quotes, with none inside,
    comes out without the pair when it does not end in a slash; when the
    quoted value ends in a slash, that slash is dropped together with the
    closing quote. *)
Theorem stripQuotes_quoted (s : string) :
  quote_free s →
  (ends_with_slash s = false → stripQuotes (quoted s) = s) ∧
  stripQuotes (quoted (s +:+ "/")) = s.
Proof.
  intros Hs. unfold stripQuotes, quoted. simpl. split.
  - intros Hslash. by apply strip_from_closing.
  - rewrite string_app_assoc. by apply strip_from_closing_slash.
Qed.

Lemma stripQuotes_quoted_witness :
  stripQuotes (quoted project_url) = project_url ∧
  stripQuotes (quoted (project_url +:+ "/")) = project_url.
Proof.
  destruct (stripQuotes_quoted project_url project_url_quote_free) as [Hplain Hslash].
  split; [apply Hplain; reflexivity|exact Hslash].
Defined.

(** ** Which buckets exist *)

(** X3. When the read goes through and the hosted rows are groupable,
    [fetchTickets] returns a bucket for a column exactly when some hosted
    ticket is in that column; no bucket is empty, and an empty table gives
    the empty mapping.  When the read goes through and some hosted row is
    not groupable, [fetchTickets] throws.  In both cases only the read is
    logged; view and store are untouched. *)
Theorem fetchTickets_buckets_inhabited (w : World) :
  goes_through (network w) →
  ∃ r w',
    fetchTickets w = (r, w') ∧
    db w' = db w ∧ view w' = view w ∧ log w' = log w ++ [SelectTickets] ∧
    (groupable (tickets_table (db w)) →
       ∃ grouped,
         r = Returned grouped ∧
         (∀ c, is_Some (grouped !! c)
               ↔ ∃ T, T ∈ tickets_table (db w) ∧ Ticket.column T = c) ∧
         (∀ c, grouped !! c ≠ Some []) ∧
         (tickets_table (db w) = [] → grouped = ∅)) ∧
    (¬ groupable (tickets_table (db w)) →
       r = Thrown (not_a_function "grouped[ticket.column].push")).
Proof.
  intros Hnet.
  destruct (select_tickets_ordered_sorted w Hnet)
    as (data & w' & Hread & Hperm & _ & Hdb & Hview & Hlog).
  assert (Hsame : groupable data ↔ groupable (tickets_table (db w))).
  { unfold groupable. by rewrite Hperm. }
  destruct (decide (groupable (tickets_table (db w)))) as [Hplain|Hodd].
  - exists (Returned (buckets_of data)), w'. split_and!; try done.
    + unfold fetchTickets, bind. rewrite Hread. simpl.
      by rewrite groupByColumn_groupable by (by apply Hsame).
    + intros _. exists (buckets_of data). split_and!; try done.
      * intros c. rewrite buckets_of_lookup.
        destruct (filter (inColumn c) data) as [|T bucket] eqn:Hf.
        -- split; [by intros []|]. intros (T & HT & Hc).
           assert (T ∈ filter (inColumn c) data) as Hin.
           { apply list_elem_of_filter. by rewrite Hperm. }
           rewrite Hf in Hin. by apply elem_of_nil in Hin.
        -- split; [|by eauto]. intros _. exists T.
           assert (T ∈ filter (inColumn c) data) as Hin by (rewrite Hf; left).
           apply list_elem_of_filter in Hin as [Hc HT]. by rewrite <- Hperm.
      * intros c. rewrite buckets_of_lookup.
        destruct (filter (inColumn c) data); congruence.
      * intros Hempty. rewrite Hempty in Hperm.
        apply Permutation_nil_r in Hperm. by subst data.
  - exists (Thrown (not_a_function "grouped[ticket.column].push")), w'.
    split_and!; try done.
    apply (fetchTickets_not_groupable w w' data); [done|]. by rewrite Hsame.
Qed.

(** The sample board has buckets for "Good" and "Bad" and none for "Ideas". *)
Lemma fetchTickets_buckets_inhabited_witness :
  ∃ grouped,
    (fetchTickets (retro_world [])).1 = Returned grouped ∧
    is_Some (grouped !! "Good") ∧ grouped !! "Ideas" = None.
Proof.
  destruct (fetchTickets_buckets_inhabited (retro_world []))
    as (r & w' & Hrun & _ & _ & _ & Hplain & _); [exact I|].
  destruct Hplain as (grouped & -> & Hdom & _); [repeat constructor|].
  exists grouped. rewrite Hrun. split; [done|]. split.
  - apply Hdom. exists pairing. split; [compute_done|done].
  - apply eq_None_not_Some. rewrite Hdom. intros (T & HT & Hc).
    simpl in HT. unfold retro_rows in HT.
    repeat (apply elem_of_cons in HT as [->|HT]; [discriminate|]).
    by apply elem_of_nil in HT.
Defined.

(** ** Reloads, in every case *)

(** X4. [refreshTickets] always returns, with [loading] false, after exactly
    one read, and never touches the store, the votes or the edit session.
    When the read goes through and the hosted rows are groupable, the
    buckets become the hosted rows partitioned by column and the error flag
    is left as it was (a reload never clears it).  When the read goes
    through and some hosted row is not groupable, the buckets stay and the
    flag holds the message of the grouping's error.  When the read fails,
    the buckets stay and the flag holds the failure's message, or "Failed to
    load tickets." for an empty message. *)
Theorem refreshTickets_outcomes (w : World) :
  ∃ w',
    refreshTickets w = (Returned tt, w') ∧
    loading (view w') = false ∧
    db w' = db w ∧
    log w' = log w ++ [SelectTickets] ∧
    votes (view w') = votes (view w) ∧
    editingTicketId (view w') = editingTicketId (view w) ∧
    editingTitle (view w') = editingTitle (view w) ∧
    editingContent (view w') = editingContent (view w) ∧
    (goes_through (network w) → groupable (tickets_table (db w)) →
       ticketsByColumn (view w') = authoritative (db w) ∧
       error (view w') = error (view w)) ∧
    (goes_through (network w) → ¬ groupable (tickets_table (db w)) →
       ticketsByColumn (view w') = ticketsByColumn (view w) ∧
       error (view w') = Some (message (not_a_function "grouped[ticket.column].push"))) ∧
    (∀ msg rest, network w = Some msg :: rest →
       ticketsByColumn (view w') = ticketsByColumn (view w) ∧
       error (view w') = Some (if truthy msg then msg else "Failed to load tickets.")).
Proof.
  destruct (decide (goes_through (network w))) as [Hok|Hko].
  - destruct (decide (groupable (tickets_table (db w)))) as [Hplain|Hodd].
    + destruct (refreshTickets_goes_through w Hok Hplain)
        as (w' & Hrun & Hview & Hdb & _ & Hlog).
      exists w'. rewrite Hview. split_and!; try done.
      intros msg rest Hnet. by rewrite Hnet in Hok.
    + destruct (refreshTickets_not_groupable w Hok Hodd)
        as (w' & Hrun & Hview & Hdb & _ & Hlog).
      exists w'. rewrite Hview. split_and!; try done.
      intros msg rest Hnet. by rewrite Hnet in Hok.
  - destruct (network w) as [|[msg|] rest] eqn:Hnet; simpl in Hko; try done.
    destruct (refreshTickets_fails w msg rest Hnet) as (w' & Hrun & Hview & Hdb & _ & Hlog).
    exists w'. rewrite Hview. split_and!; try done.
    intros msg' rest' [= <- <-]. done.
Qed.

Lemma loadVotes_goes_through (w : World) :
  goes_through (network w) →
  ∃ w', loadVotes w = (Returned tt, w') ∧
        view w' = set_votes (votes_table (db w)) (view w) ∧
        db w' = db w ∧
        network w' = tail (network w) ∧
        log w' = log w ++ [SelectVotes].
Proof.
  intros Hok. unfold loadVotes, try_catch, fetchVotes, bind, Supabase.select_votes.
  rewrite request_goes_through by done. simpl.
  eexists. split; [reflexivity|]. done.
Qed.

Lemma loadVotes_fails (w : World) (msg : string) (rest : list (option string)) :
  network w = Some msg :: rest →
  ∃ w', loadVotes w = (Returned tt, w') ∧
        view w' = set_error (Some (or_else (Some msg) "Failed to load votes."))
                    (view w) ∧
        db w' = db w ∧
        network w' = rest ∧
        log w' = log w ++ [SelectVotes].
Proof.
  intros Hnet. unfold loadVotes, try_catch, fetchVotes, bind, Supabase.select_votes.
  rewrite (request_fails _ _ _ msg rest) by done. simpl.
  eexists. split; [reflexivity|]. done.
Qed.

(** X5. [loadVotes], which is also what every event of the change feed
    runs, always returns after exactly one read and never touches the store
    or the tickets.  When the read goes through, the in-memory list is the
    hosted list, whatever it was before; when it fails, the list is kept and
    the error flag holds the failure's message, or "Failed to load votes."
    for an empty message. *)
Theorem loadVotes_outcomes (w : World) :
  ∃ w',
    loadVotes w = (Returned tt, w') ∧
    db w' = db w ∧
    log w' = log w ++ [SelectVotes] ∧
    ticketsByColumn (view w') = ticketsByColumn (view w) ∧
    loading (view w') = loading (view w) ∧
    editingTicketId (view w') = editingTicketId (view w) ∧
    (goes_through (network w) →
       votes (view w') = votes_table (db w) ∧ error (view w') = error (view w)) ∧
    (∀ msg rest, network w = Some msg :: rest →
       votes (view w') = votes (view w) ∧
       error (view w') = Some (if truthy msg then msg else "Failed to load votes.")).
Proof.
  destruct (decide (goes_through (network w))) as [Hok|Hko].
  - destruct (loadVotes_goes_through w Hok) as (w' & Hrun & Hview & Hdb & _ & Hlog).
    exists w'. rewrite Hview. split_and!; try done.
    intros msg rest Hnet. by rewrite Hnet in Hok.
  - destruct (network w) as [|[msg|] rest] eqn:Hnet; simpl in Hko; try done.
    destruct (loadVotes_fails w msg rest Hnet) as (w' & Hrun & Hview & Hdb & _ & Hlog).
    exists w'. rewrite Hview. split_and!; try done.
    intros msg' rest' [= <- <-]. done.
Qed.

(** X6. [onMount] always returns with [loading] false after exactly two
    reads, tickets then votes, and the second is attempted even when the
    first failed.  Each read that goes through installs its data, the
    tickets provided the hosted rows are groupable.  The error flag ends as
    it was when both go through and the rows are groupable, holds the
    tickets' message when only the first read fails, and holds the votes'
    message whenever the second read fails. *)
Theorem onMount_outcomes (w : World) :
  ∃ w',
    onMount w = (Returned tt, w') ∧
    log w' = log w ++ [SelectTickets; SelectVotes] ∧
    loading (view w') = false ∧
    db w' = db w ∧
    (goes_through (network w) → groupable (tickets_table (db w)) →
       ticketsByColumn (view w') = authoritative (db w)) ∧
    (goes_through (tail (network w)) → votes (view w') = votes_table (db w)) ∧
    (goes_through (network w) → goes_through (tail (network w)) →
       groupable (tickets_table (db w)) →
       error (view w') = error (view w)) ∧
    (goes_through (network w) → goes_through (tail (network w)) →
       ¬ groupable (tickets_table (db w)) →
       ticketsByColumn (view w') = ticketsByColumn (view w) ∧
       error (view w') = Some (message (not_a_function "grouped[ticket.column].push"))) ∧
    (∀ msg rest, network w = Some msg :: rest → goes_through rest →
       error (view w') = Some (if truthy msg then msg else "Failed to load tickets.")) ∧
    (∀ msg rest, tail (network w) = Some msg :: rest →
       error (view w') = Some (if truthy msg then msg else "Failed to load votes.")).
Proof.
  assert (Hfirst : ∃ w1, refreshTickets w = (Returned tt, w1) ∧
            db w1 = db w ∧ network w1 = tail (network w) ∧
            log w1 = log w ++ [SelectTickets] ∧
            loading (view w1) = false ∧
            votes (view w1) = votes (view w) ∧
            (goes_through (network w) → groupable (tickets_table (db w)) →
               ticketsByColumn (view w1) = authoritative (db w) ∧
               error (view w1) = error (view w)) ∧
            (goes_through (network w) → ¬ groupable (tickets_table (db w)) →
               ticketsByColumn (view w1) = ticketsByColumn (view w) ∧
               error (view w1) = Some (message (not_a_function "grouped[ticket.column].push"))) ∧
            (∀ msg rest, network w = Some msg :: rest →
               error (view w1)
                 = Some (if truthy msg then msg else "Failed to load tickets."))).
  { destruct (decide (goes_through (network w))) as [Hok|Hko].
    - destruct (decide (groupable (tickets_table (db w)))) as [Hplain|Hodd].
      + destruct (refreshTickets_goes_through w Hok Hplain)
          as (w1 & Hrun & Hview & Hdb & Hnet & Hlog).
        exists w1. rewrite Hview. split_and!; try done.
        intros msg rest Hfail. by rewrite Hfail in Hok.
      + destruct (refreshTickets_not_groupable w Hok Hodd)
          as (w1 & Hrun & Hview & Hdb & Hnet & Hlog).
        exists w1. rewrite Hview. split_and!; try done.
        intros msg rest Hfail. by rewrite Hfail in Hok.
    - destruct (network w) as [|[msg|] rest] eqn:Hnetw; simpl in Hko; try done.
      destruct (refreshTickets_fails w msg rest Hnetw)
        as (w1 & Hrun & Hview & Hdb & Hnet & Hlog).
      exists w1. rewrite Hview. split_and!; try done.
      intros msg' rest' [= <- <-]. done. }
  destruct Hfirst
    as (w1 & Hrun1 & Hdb1 & Hnet1 & Hlog1 & Hload1 & Hvotes1 & Hok1 & Hodd1 & Hko1).
  unfold onMount, bind. rewrite Hrun1.
  destruct (decide (goes_through (network w1))) as [Hok|Hko].
  - destruct (loadVotes_goes_through w1 Hok) as (w' & Hrun & Hview & Hdb & _ & Hlog).
    exists w'. rewrite Hview, Hdb, Hlog, Hlog1, Hdb1, <- app_assoc. simpl.
    rewrite Hnet1 in Hok. split_and!; try done.
    + intros Hgo Hplain. by apply Hok1.
    + intros Hgo _ Hplain. by apply Hok1.
    + intros Hgo _ Hodd. by apply Hodd1.
    + intros msg rest Hfail _. by eapply Hko1.
    + intros msg rest Hfail. by rewrite Hfail in Hok.
  - destruct (network w1) as [|[msg|] rest] eqn:Hnetw1; simpl in Hko; try done.
    destruct (loadVotes_fails w1 msg rest Hnetw1) as (w' & Hrun & Hview & Hdb & _ & Hlog).
    exists w'. rewrite Hview, Hdb, Hlog, Hlog1, Hdb1, <- app_assoc. simpl.
    rewrite <- Hnet1. split_and!; try done.
    + intros Hgo Hplain. by apply Hok1.
    + intros msg' rest' Hfail Hrest. rewrite Hfail in Hnet1.
      simpl in Hnet1. by rewrite <- Hnet1 in Hrest.
    + intros msg' rest' [= <- <-]. done.
Qed.

(** ** Voter identity is never empty *)

(** X7. [getCurrentVoterId] always returns a non-empty id.  In the browser
    the storage then holds exactly the returned id under [voter_id]: a
    stored non-empty id is returned as it is, with nothing written, while a
    stored empty string counts as missing and is replaced by a new UUID.
    Outside the browser the placeholder is returned and nothing is
    touched. *)
Theorem voter_id_never_empty (w : World) :
  ∃ voterId w0,
    getCurrentVoterId w = (Returned voterId, w0) ∧
    voterId ≠ "" ∧
    (window_defined w = true → localStorage w0 !! "voter_id" = Some voterId) ∧
    (window_defined w = false → voterId = "ssr-placeholder" ∧ w0 = w) ∧
    (∀ v, window_defined w = true → localStorage w !! "voter_id" = Some v →
          v ≠ "" → voterId = v ∧ w0 = w) ∧
    (window_defined w = true → localStorage w !! "voter_id" = Some "" →
       voterId = uuid_string (hd 0%N (entropy w)) ∧ w0 = profile_with voterId w).
Proof.
  assert (Hfresh : uuid_string (hd 0%N (entropy w)) ≠ "")
    by apply truthy_spec, uuid_string_truthy.
  assert (Hcreate : window_defined w = true →
            truthy_opt (localStorage w !! "voter_id") = false →
            getCurrentVoterId w
              = (Returned (uuid_string (hd 0%N (entropy w))),
                 profile_with (uuid_string (hd 0%N (entropy w))) w)).
  { intros Hwin Hfalsy. unfold getCurrentVoterId, bind, getItem.
    by rewrite Hwin, Hfalsy. }
  destruct (window_defined w) eqn:Hwin.
  - destruct (truthy_opt (localStorage w !! "voter_id")) eqn:Htruthy.
    + destruct (localStorage w !! "voter_id") as [v|] eqn:Hv; [|done].
      simpl in Htruthy. apply truthy_spec in Htruthy.
      exists v, w. split; [by apply getCurrentVoterId_stored|].
      split; [done|]. split; [done|]. split; [done|]. split.
      * by intros v' _ [= <-] _.
      * intros _ [= ->]. done.
    + exists (uuid_string (hd 0%N (entropy w))),
             (profile_with (uuid_string (hd 0%N (entropy w))) w).
      split; [by apply Hcreate|]. split; [done|]. split.
      { intros _. unfold profile_with. simpl. by rewrite lookup_insert_eq. }
      split; [done|]. split; [|done].
      intros v _ Hv Hne. rewrite Hv in Htruthy. simpl in Htruthy.
      apply truthy_spec in Hne. congruence.
  - exists "ssr-placeholder", w.
    split; [by apply getCurrentVoterId_ssr|]. done.
Qed.

(** ** Vote toggle, when everything goes through *)

Lemma getCurrentVoterId_frame (w : World) (v : Model) (d : Backend)
    (net : list (option string)) (lg : list Request) (voterId : string) :
  getCurrentVoterId w = (Returned voterId, w) →
  getCurrentVoterId
    (mkWorld v d (window_defined w) (localStorage w) (entropy w) net lg)
  = (Returned voterId,
     mkWorld v d (window_defined w) (localStorage w) (entropy w) net lg).
Proof.
  unfold getCurrentVoterId, bind, getItem, randomUUID, setItem, ret. simpl.
  destruct (window_defined w); [|by intros [= <-]].
  destruct (truthy_opt (localStorage w !! "voter_id")) eqn:Htruthy.
  - by intros [= <-].
  - intros [= _ Hw]. exfalso.
    apply (f_equal (λ x, localStorage x !! "voter_id")) in Hw. simpl in Hw.
    rewrite lookup_insert_eq in Hw. rewrite <- Hw in Htruthy. simpl in Htruthy.
    by rewrite uuid_string_truthy in Htruthy.
Qed.

Lemma votesOf_none_keep (ticket_id voter_id : string) (l : list Vote.t) :
  votesOf ticket_id voter_id l = [] →
  filter (λ v, ¬ (Vote.ticket_id v = ticket_id ∧ Vote.voter_id v = voter_id)) l = l.
Proof.
  unfold votesOf. induction l as [|v l IH]; [done|].
  rewrite !filter_cons. case_decide as Hv; [done|].
  intros Hnone. rewrite decide_True by done. f_equal. by apply IH.
Qed.

Lemma toggleVote_adds (w w0 : World) (ticket : Ticket.t) (voterId : string) :
  getCurrentVoterId w = (Returned voterId, w0) →
  votesOf (Ticket.id ticket) voterId (votes (view w)) = [] →
  all_go_through 2 (network w) →
  toggleVote ticket w
    = (Returned tt,
       toggled w0
         (votes_table (db w)
            ++ [Vote.mk (Supabase.fresh_id (db w)) (Ticket.id ticket) voterId])
         (tail (id_seeds (db w)))
         (InsertVote (Ticket.id ticket) voterId)).
Proof.
  intros Hid Hnone Hnet.
  pose proof (Hnet 0%nat ltac:(lia)) as Hfirst.
  pose proof (Hnet 1%nat ltac:(lia)) as Hsecond. simpl in Hfirst.
  change (drop 1 (network w)) with (tail (network w)) in Hsecond.
  destruct (getCurrentVoterId_settled w)
    as (voterId' & w0' & Hid' & Hagain & Hview & Hdb & Hnet0 & Hlog).
  rewrite Hid in Hid'. injection Hid' as <- <-.
  unfold toggleVote, bind at 1. rewrite Hid.
  unfold bind at 1, hasVoted, bind at 1. rewrite Hagain.
  unfold bind at 1, read, ret. rewrite existsb_votesOf, Hview.
  rewrite bool_decide_false by (by intros []).
  unfold try_catch, bind at 1, addVote, bind at 1, Supabase.insert_vote.
  rewrite request_goes_through by (by rewrite Hnet0). simpl.
  unfold loadVotes, try_catch, fetchVotes, bind, Supabase.select_votes.
  rewrite request_goes_through by (simpl; by rewrite Hnet0). simpl.
  unfold toggled, update. simpl. by rewrite Hview, Hdb, Hnet0, Hlog, <- app_assoc.
Qed.

Lemma toggleVote_removes (w w0 : World) (ticket : Ticket.t) (voterId : string) :
  getCurrentVoterId w = (Returned voterId, w0) →
  votesOf (Ticket.id ticket) voterId (votes (view w)) ≠ [] →
  all_go_through 2 (network w) →
  toggleVote ticket w
    = (Returned tt,
       toggled w0
         (filter (λ v, ¬ (Vote.ticket_id v = Ticket.id ticket
                          ∧ Vote.voter_id v = voterId))
                 (votes_table (db w)))
         (id_seeds (db w))
         (DeleteVotes (Ticket.id ticket) voterId)).
Proof.
  intros Hid Hvoted Hnet.
  pose proof (Hnet 0%nat ltac:(lia)) as Hfirst.
  pose proof (Hnet 1%nat ltac:(lia)) as Hsecond. simpl in Hfirst.
  change (drop 1 (network w)) with (tail (network w)) in Hsecond.
  destruct (getCurrentVoterId_settled w)
    as (voterId' & w0' & Hid' & Hagain & Hview & Hdb & Hnet0 & Hlog).
  rewrite Hid in Hid'. injection Hid' as <- <-.
  unfold toggleVote, bind at 1. rewrite Hid.
  unfold bind at 1, hasVoted, bind at 1. rewrite Hagain.
  unfold bind at 1, read, ret. rewrite existsb_votesOf, Hview.
  rewrite bool_decide_true by done.
  unfold try_catch, bind at 1, removeVote, bind at 1, Supabase.delete_votes.
  rewrite request_goes_through by (by rewrite Hnet0). simpl.
  unfold loadVotes, try_catch, fetchVotes, bind, Supabase.select_votes.
  rewrite request_goes_through by (simpl; by rewrite Hnet0). simpl.
  unfold toggled, update. simpl. by rewrite Hview, Hdb, Hnet0, Hlog, <- app_assoc.
Qed.

(** X8. A voter without a vote on the ticket who toggles twice, with all four
    requests going through, is back where they started: after the first
    toggle exactly one vote of theirs on the ticket is hosted, after the
    second the hosted votes are the original list, and the in-memory list
    shows it.  The requests are insert, read, delete, read. *)
Theorem toggleVote_twice_restores (w w0 : World) (ticket : Ticket.t) (voterId : string) :
  getCurrentVoterId w = (Returned voterId, w0) →
  votesOf (Ticket.id ticket) voterId (votes (view w)) = [] →
  votesOf (Ticket.id ticket) voterId (votes_table (db w)) = [] →
  all_go_through 4 (network w) →
  ∃ w1 w2,
    toggleVote ticket w = (Returned tt, w1) ∧
    toggleVote ticket w1 = (Returned tt, w2) ∧
    length (votesOf (Ticket.id ticket) voterId (votes_table (db w1))) = 1%nat ∧
    votes_table (db w2) = votes_table (db w) ∧
    votes (view w2) = votes_table (db w) ∧
    log w2 = log w ++ [InsertVote (Ticket.id ticket) voterId; SelectVotes;
                       DeleteVotes (Ticket.id ticket) voterId; SelectVotes].
Proof.
  intros Hid Hview Hstore Hnet.
  destruct (getCurrentVoterId_settled w)
    as (voterId' & w0' & Hid' & Hagain & Hview0 & Hdb0 & Hnet0 & Hlog0).
  rewrite Hid in Hid'. injection Hid' as <- <-.
  assert (Hfirst : all_go_through 2 (network w)).
  { intros i Hi. apply Hnet. lia. }
  pose proof (toggleVote_adds w w0 ticket voterId Hid Hview Hfirst) as Hrun1.
  eexists _, _. split; [exact Hrun1|].
  match type of Hrun1 with _ = (_, ?x) => set (w1 := x) in * end.
  assert (Hid1 : getCurrentVoterId w1 = (Returned voterId, w1)).
  { subst w1. unfold toggled. by apply getCurrentVoterId_frame. }
  assert (Hvoted : votesOf (Ticket.id ticket) voterId (votes (view w1)) ≠ []).
  { subst w1. simpl. unfold votesOf. rewrite filter_app, filter_cons, filter_nil.
    simpl. rewrite decide_True by done. by destruct (filter _ (votes_table (db w))). }
  assert (Hsecond : all_go_through 2 (network w1)).
  { intros i Hi. subst w1. simpl. rewrite Hnet0.
    replace (tail (tail (network w))) with (drop 2 (network w))
      by (by destruct (network w) as [|? [|? ?]]).
    rewrite drop_drop. apply Hnet. lia. }
  pose proof (toggleVote_removes w1 w1 ticket voterId Hid1 Hvoted Hsecond) as Hrun2.
  split; [exact Hrun2|]. subst w1. simpl.
  assert (Hkeep :
    filter (λ v, ¬ (Vote.ticket_id v = Ticket.id ticket ∧ Vote.voter_id v = voterId))
      (votes_table (db w)
         ++ [Vote.mk (Supabase.fresh_id (db w)) (Ticket.id ticket) voterId])
    = votes_table (db w)).
  { rewrite filter_app, filter_cons, filter_nil. simpl.
    rewrite decide_False by (intros Hn; by apply Hn).
    rewrite app_nil_r. by apply votesOf_none_keep. }
  rewrite Hkeep. split_and!; try done.
  - unfold votesOf in *. rewrite filter_app, Hstore, filter_cons, filter_nil.
    simpl. by rewrite decide_True.
  - rewrite Hlog0, <- !app_assoc. done.
Qed.

(** Ann votes for "Flaky tests" and takes the vote back. *)
Lemma toggleVote_twice_restores_witness :
  ∃ w1 w2,
    toggleVote flaky_tests (retro_world []) = (Returned tt, w1) ∧
    toggleVote flaky_tests w1 = (Returned tt, w2) ∧
    votes_table (db w2) = retro_votes ∧ votes (view w2) = retro_votes.
Proof.
  destruct (toggleVote_twice_restores (retro_world []) (retro_world [])
              flaky_tests "ann")
    as (w1 & w2 & Hrun1 & Hrun2 & _ & Hstore & Hview & _).
  - reflexivity.
  - reflexivity.
  - reflexivity.
  - intros i _. simpl. by rewrite drop_nil.
  - exists w1, w2. done.
Defined.

Lemma count_after_delete (tid vid tid' : string) (l : list Vote.t) :
  (length (filter (λ v, Vote.ticket_id v = tid')
             (filter (λ v, ¬ (Vote.ticket_id v = tid ∧ Vote.voter_id v = vid)) l))
   + (if decide (tid' = tid) then length (votesOf tid vid l) else 0))%nat
  = length (filter (λ v, Vote.ticket_id v = tid') l).
Proof.
  unfold votesOf. induction l as [|v l IH]; simpl.
  - by destruct (decide (tid' = tid)).
  - rewrite !filter_cons.
    destruct (decide (Vote.ticket_id v = tid ∧ Vote.voter_id v = vid)) as [[Ht Hv]|Hno].
    + rewrite decide_False by tauto.
      destruct (decide (tid' = tid)) as [->|Hne].
      * rewrite decide_True by done. simpl. lia.
      * rewrite decide_False by congruence. lia.
    + rewrite decide_True by done. rewrite filter_cons.
      destruct (decide (Vote.ticket_id v = tid')); simpl; lia.
Qed.

(** X9. With the in-memory votes equal to the hosted ones and both requests
    going through, a toggle changes the displayed vote count of the toggled
    ticket only: by +1 when the voter had no vote on it, and otherwise by
    minus the number of votes the voter had on it (all duplicates go at
    once).  The count of every other ticket is as before. *)
Theorem toggleVote_changes_count (w w0 : World) (ticket other : Ticket.t)
    (voterId : string) :
  getCurrentVoterId w = (Returned voterId, w0) →
  votes (view w) = votes_table (db w) →
  all_go_through 2 (network w) →
  ∃ w',
    toggleVote ticket w = (Returned tt, w') ∧
    getVoteCount (view w') other
      = getVoteCount (view w) other
        + (if decide (Ticket.id other = Ticket.id ticket)
           then (if decide (votesOf (Ticket.id ticket) voterId (votes (view w)) = [])
                 then 1
                 else - Z.of_nat (length (votesOf (Ticket.id ticket) voterId
                                            (votes (view w)))))
           else 0).
Proof.
  intros Hid Hsync Hnet.
  destruct (decide (votesOf (Ticket.id ticket) voterId (votes (view w)) = []))
    as [Hnone|Hvoted].
  - rewrite (toggleVote_adds w w0 ticket voterId Hid Hnone Hnet).
    eexists. split; [reflexivity|]. unfold getVoteCount, toggled. simpl.
    rewrite Hsync, filter_app, filter_cons, filter_nil, length_app. simpl.
    destruct (decide (Ticket.id ticket = Ticket.id other)) as [Heq|Hne].
    + rewrite decide_True by done. simpl. lia.
    + rewrite decide_False by congruence. simpl. lia.
  - rewrite (toggleVote_removes w w0 ticket voterId Hid Hvoted Hnet).
    eexists. split; [reflexivity|]. unfold getVoteCount, toggled. simpl.
    rewrite Hsync.
    pose proof (count_after_delete (Ticket.id ticket) voterId (Ticket.id other)
                  (votes_table (db w))) as Hcount.
    destruct (decide (Ticket.id other = Ticket.id ticket)); lia.
Qed.

(** Ann takes back her vote on "Pairing": its count drops from 1 to 0, the
    count of "Demo day" stays 2. *)
Lemma toggleVote_changes_count_witness :
  ∃ w', toggleVote pairing (retro_world []) = (Returned tt, w') ∧
        getVoteCount (view w') pairing = 0 ∧
        getVoteCount (view w') demo_day = 2.
Proof.
  destruct (toggleVote_changes_count (retro_world []) (retro_world [])
              pairing pairing "ann") as (w' & Hrun & Hown).
  - reflexivity.
  - reflexivity.
  - intros i _. simpl. by rewrite drop_nil.
  - destruct (toggleVote_changes_count (retro_world []) (retro_world [])
                pairing demo_day "ann") as (w'' & Hrun' & Hother).
    + reflexivity.
    + reflexivity.
    + intros i _. simpl. by rewrite drop_nil.
    + rewrite Hrun in Hrun'. injection Hrun' as <-.
      exists w'. split; [exact Hrun|]. split; [exact Hown|exact Hother].
Defined.

(** ** The view shows the hosted tickets *)

Lemma map_agree {A B} (g h : A → B) (l : list A) :
  (∀ x, x ∈ l → g x = h x) → map g l = map h l.
Proof.
  induction l as [|x l IH]; simpl; [done|]. intros Hgh.
  rewrite Hgh by left. f_equal. apply IH. intros y Hy. apply Hgh. by right.
Qed.

Lemma map_fixed {A} (h : A → A) (l : list A) :
  (∀ x, x ∈ l → h x = x) → map h l = l.
Proof.
  induction l as [|x l IH]; simpl; [done|]. intros Hh.
  rewrite Hh by left. f_equal. apply IH. intros y Hy. apply Hh. by right.
Qed.

Lemma filter_map_commute {A} (P : A → Prop) `{!∀ x, Decision (P x)}
    (h : A → A) (l : list A) :
  (∀ x, P (h x) ↔ P x) → filter P (map h l) = map h (filter P l).
Proof.
  intros HP. induction l as [|x l IH]; simpl; [done|].
  rewrite !filter_cons. destruct (decide (P x)) as [Hx|Hx].
  - rewrite decide_True by (by apply HP). simpl. by rewrite IH.
  - rewrite decide_False by (by rewrite HP). done.
Qed.

Lemma authoritative_bucket (b : Backend) (c : string) :
  default [] (authoritative b !! c) ≡ₚ filter (inColumn c) (tickets_table b).
Proof.
  unfold authoritative. rewrite buckets_of_lookup.
  rewrite <- (sort_by_perm (λ x y, Ticket.order x - Ticket.order y) (tickets_table b))
    at 2.
  by destruct (filter (inColumn c) (sort_by _ (tickets_table b))).
Qed.

Lemma grouped_shows_hosted (w : World) :
  groupByColumn (tickets_table (db w)) = Some (ticketsByColumn (view w)) →
  shows_hosted w.
Proof.
  intros Hview c.
  destruct (decide (groupable (tickets_table (db w)))) as [Hplain|Hodd].
  - rewrite groupByColumn_groupable in Hview by done. injection Hview as <-.
    rewrite buckets_of_lookup.
    by destruct (filter (inColumn c) (tickets_table (db w))).
  - by rewrite groupByColumn_not_groupable in Hview.
Qed.

(** X10. A reload whose read goes through, the hosted rows being groupable,
    makes the view show the hosted tickets, column by column, whatever it
    showed before. *)
Theorem refreshTickets_shows_hosted (w : World) :
  goes_through (network w) →
  groupable (tickets_table (db w)) →
  ∃ w', refreshTickets w = (Returned tt, w') ∧ shows_hosted w'.
Proof.
  intros Hnet Hplain.
  destruct (refreshTickets_goes_through w Hnet Hplain) as (w' & Hrun & Hview & Hdb & _).
  exists w'. split; [done|]. intros c. rewrite Hview, Hdb. simpl.
  apply authoritative_bucket.
Qed.

(** A retitled card that was never saved is gone after a reload. *)
Lemma refreshTickets_shows_hosted_witness :
  ∃ w', refreshTickets (retitling_world []) = (Returned tt, w') ∧ shows_hosted w'.
Proof.
  apply (refreshTickets_shows_hosted (retitling_world [])); [exact I|].
  repeat constructor.
Defined.



Lemma saveEdit_goes_through (w : World) (ticket : Ticket.t) (bucket : list Ticket.t) :
  truthy_opt (editingTicketId (view w)) = true →
  editingTitle (view w) ≠ Ticket.title ticket
    ∨ editingContent (view w) ≠ Some (or_else (Ticket.content ticket) "") →
  ticketsByColumn (view w) !! Ticket.column ticket = Some bucket →
  goes_through (network w) →
  saveEdit ticket w = (Returned tt, saved w ticket bucket).
Proof.
  intros Hactive Hchanged Hbucket Hnet.
  unfold saveEdit, bind at 1, read. rewrite Hactive. simpl.
  rewrite decide_True by done.
  unfold bind at 1, optimisticUpdate, bind at 1, read. rewrite Hbucket.
  unfold update at 1. unfold bind at 1, update at 1.
  unfold bind at 1, Supabase.update_ticket.
  rewrite request_goes_through by done. reflexivity.
Qed.

(** X12. Let the view show the hosted tickets and let the ticket passed to
    [saveEdit] be the hosted row of its id.  When the edit changed something
    and the update goes through, the view still shows the hosted tickets:
    the optimistic change and the stored change are the same, so no reload
    is needed and none is sent.  Every hosted row of that id carries the
    edited title and content, the session is over, the error flag is as it
    was. *)
Theorem saveEdit_keeps_hosted_view (w : World) (ticket : Ticket.t)
    (bucket : list Ticket.t) :
  shows_hosted w →
  (∀ r, r ∈ tickets_table (db w) → Ticket.id r = Ticket.id ticket → r = ticket) →
  truthy_opt (editingTicketId (view w)) = true →
  editingTitle (view w) ≠ Ticket.title ticket
    ∨ editingContent (view w) ≠ Some (or_else (Ticket.content ticket) "") →
  ticketsByColumn (view w) !! Ticket.column ticket = Some bucket →
  goes_through (network w) →
  ∃ w',
    saveEdit ticket w = (Returned tt, w') ∧
    shows_hosted w' ∧
    (∀ r, r ∈ tickets_table (db w') → Ticket.id r = Ticket.id ticket →
       Ticket.title r = editingTitle (view w) ∧
       Ticket.content r = editingContent (view w)) ∧
    log w' = log w ++ [UpdateTicket (Ticket.id ticket) (editingTitle (view w))
                                    (editingContent (view w))] ∧
    editingTicketId (view w') = None ∧
    error (view w') = error (view w).
Proof.
  intros Hsync Hrow Hactive Hchanged Hbucket Hnet.
  exists (saved w ticket bucket). split; [by apply saveEdit_goes_through|].
  split; [|split; [|done]].
  - intros c. unfold saved. simpl.
    set (h := λ r : Ticket.t,
           if decide (Ticket.id r = Ticket.id ticket)
           then Ticket.with_text (editingTitle (view w)) (editingContent (view w)) r
           else r).
    assert (Hcol : ∀ x, inColumn c (h x) ↔ inColumn c x).
    { intros x. unfold h, inColumn. by case_decide. }
    rewrite (filter_map_commute _ h _ Hcol).
    pose proof (Hsync c) as Hc.
    destruct (decide (Ticket.column ticket = c)) as [<-|Hne].
    + rewrite lookup_insert_eq. rewrite Hbucket in Hc. simpl in *.
      unfold edited_bucket.
      rewrite (map_agree _ h bucket).
      * by apply Permutation_map.
      * intros x Hx. unfold h. case_decide as Hid; [|done].
        rewrite Hc in Hx. apply list_elem_of_filter in Hx as [_ Hx].
        by rewrite (Hrow x Hx Hid).
    + rewrite lookup_insert_ne by done. rewrite Hc.
      rewrite map_fixed; [done|].
      intros x Hx. apply list_elem_of_filter in Hx as [Hxc Hx].
      unfold h. case_decide as Hid; [|done].
      rewrite (Hrow x Hx Hid) in Hxc. done.
  - intros r Hr Hid. unfold saved in Hr. simpl in Hr.
    apply list_elem_of_In, in_map_iff in Hr as (r0 & <- & Hr0).
    case_decide as Hid0; [done|]. done.
Qed.

Lemma retro_rows_by_id (ticket r : Ticket.t) :
  ticket ∈ retro_rows → r ∈ retro_rows → Ticket.id r = Ticket.id ticket → r = ticket.
Proof.
  unfold retro_rows. intros Ht Hr.
  repeat (apply elem_of_cons in Ht as [->|Ht]);
    repeat (apply elem_of_cons in Hr as [->|Hr]);
    try (by apply elem_of_nil in Ht); try (by apply elem_of_nil in Hr);
    done.
Qed.

(** Ann's new title for "Pairing" is saved. *)
Lemma saveEdit_keeps_hosted_view_witness :
  ∃ w', saveEdit pairing (retitling_world []) = (Returned tt, w') ∧
        shows_hosted w' ∧
        log w' = [UpdateTicket "t1" "Pair programming" (Some "details")].
Proof.
  destruct (saveEdit_keeps_hosted_view (retitling_world []) pairing [pairing; demo_day])
    as (w' & Hrun & Hsync & _ & Hlog & _).
  - by apply grouped_shows_hosted.
  - intros r Hr Hid. apply (retro_rows_by_id pairing r); [compute_done|exact Hr|exact Hid].
  - reflexivity.
  - left. discriminate.
  - reflexivity.
  - exact I.
  - exists w'. done.
Defined.

Lemma filter_agree {A} (P Q : A → Prop) `{!∀ x, Decision (P x)}
    `{!∀ x, Decision (Q x)} (l : list A) :
  (∀ x, x ∈ l → P x ↔ Q x) → filter P l = filter Q l.
Proof.
  induction l as [|x l IH]; [done|]. intros HPQ.
  rewrite !filter_cons.
  rewrite IH by (intros y Hy; apply HPQ; by right).
  destruct (decide (P x)) as [Hx|Hx].
  - rewrite decide_True; [done|]. by apply (HPQ x); [left|].
  - rewrite decide_False; [done|]. intros HQ. apply Hx. by apply (HPQ x); [left|].
Qed.

Lemma removeTicket_run (w : World) (ticket : Ticket.t) (bucket : list Ticket.t) :
  ticketsByColumn (view w) !! Ticket.column ticket = Some bucket →
  goes_through (network w) →
  removeTicket ticket w
    = (Returned tt,
       mkWorld
         (set_ticketsByColumn
            (<[Ticket.column ticket :=
                 filter (λ t, Ticket.id t ≠ Ticket.id ticket) bucket]>
               (ticketsByColumn (view w)))
            (view w))
         (mkBackend (filter (λ r, Ticket.id r ≠ Ticket.id ticket) (tickets_table (db w)))
                    (votes_table (db w)) (id_seeds (db w)))
         (window_defined w) (localStorage w) (entropy w) (tail (network w))
         (log w ++ [DeleteTicket (Ticket.id ticket)])).
Proof.
  intros Hbucket Hnet.
  unfold removeTicket, bind at 1, optimisticRemove, bind at 1, read.
  rewrite Hbucket. unfold update at 1.
  unfold bind at 1, Supabase.delete_ticket.
  rewrite request_goes_through by done. reflexivity.
Qed.

(** X13. Let the view show the hosted tickets and let every hosted row with
    the ticket's id be in the ticket's column.  When the delete goes
    through, [removeTicket] returns after that one request, the view still
    shows the hosted tickets and no hosted row has the id any more.  The
    column keeps a bucket, empty if the ticket was its last. *)
Theorem removeTicket_keeps_hosted_view (w : World) (ticket : Ticket.t)
    (bucket : list Ticket.t) :
  shows_hosted w →
  (∀ r, r ∈ tickets_table (db w) → Ticket.id r = Ticket.id ticket →
        Ticket.column r = Ticket.column ticket) →
  ticketsByColumn (view w) !! Ticket.column ticket = Some bucket →
  goes_through (network w) →
  ∃ w',
    removeTicket ticket w = (Returned tt, w') ∧
    shows_hosted w' ∧
    (∀ r, r ∈ tickets_table (db w') → Ticket.id r ≠ Ticket.id ticket) ∧
    is_Some (ticketsByColumn (view w') !! Ticket.column ticket) ∧
    log w' = log w ++ [DeleteTicket (Ticket.id ticket)] ∧
    error (view w') = error (view w).
Proof.
  intros Hsync Hcol Hbucket Hnet.
  eexists. split; [by apply removeTicket_run|]. simpl. split_and!; try done.
  - intros c. simpl. pose proof (Hsync c) as Hc.
    destruct (decide (Ticket.column ticket = c)) as [<-|Hne].
    + rewrite lookup_insert_eq. rewrite Hbucket in Hc. simpl in *.
      rewrite Hc, !list_filter_filter. apply reflexive_eq.
      apply list_filter_iff. intros x. tauto.
    + rewrite lookup_insert_ne by done. rewrite Hc, list_filter_filter.
      apply reflexive_eq, filter_agree. intros x Hx. split; [|tauto].
      intros Hxc. split; [done|]. intros Hid.
      apply Hne. rewrite <- (Hcol x Hx Hid). done.
  - intros r Hr. by apply list_elem_of_filter in Hr as [Hid _].
  - by rewrite lookup_insert_eq.
Qed.

(** Removing "Flaky tests", the only card of "Bad". *)
Lemma removeTicket_keeps_hosted_view_witness :
  ∃ w', removeTicket flaky_tests (retro_world []) = (Returned tt, w') ∧
        shows_hosted w' ∧
        is_Some (ticketsByColumn (view w') !! "Bad").
Proof.
  destruct (removeTicket_keeps_hosted_view (retro_world []) flaky_tests [flaky_tests])
    as (w' & Hrun & Hsync & _ & Hbucket & _).
  - by apply grouped_shows_hosted.
  - intros r Hr Hid.
    by rewrite (retro_rows_by_id flaky_tests r ltac:(compute_done) Hr Hid).
  - reflexivity.
  - exact I.
  - exists w'. done.
Defined.

Lemma sort_by_sorted_id {A} (cmp : A → A → Z) (l : list A) :
  StronglySorted (λ x y, cmp x y ≤ 0) l → sort_by cmp l = l.
Proof.
  induction 1 as [|x l Hl IH Hx]; simpl; [done|].
  rewrite IH. destruct l as [|y l']; simpl; [done|].
  apply Forall_cons in Hx as [Hxy _].
  by rewrite (proj2 (Z.leb_le _ _) Hxy).
Qed.

Lemma renderColumn_sorted_fixed (m : Model) (c : string) (sorted : list Ticket.t) :
  ticketsByColumn m !! c = Some sorted →
  StronglySorted (mostVotesFirst m) sorted →
  renderColumn c m = (sorted, m).
Proof.
  intros Hb Hsorted. unfold renderColumn. rewrite Hb.
  destruct sorted as [|first others]; [done|].
  rewrite sort_by_sorted_id.
  - rewrite insert_id by done. by destruct m.
  - eapply StronglySorted_weaken; [|exact Hsorted].
    unfold mostVotesFirst, byVotes. intros x y. lia.
Qed.
(** X14. Rendering a column a second time, with the same votes, shows the
    same sequence and changes nothing at all; and if the view showed the
    hosted tickets before a render, it does so after it. *)
Theorem render_twice (w : World) (c : string) :
  ∃ shown w',
    render c w = (Returned shown, w') ∧
    render c w' = (Returned shown, w') ∧
    (shows_hosted w → shows_hosted w').
Proof.
  destruct (ticketsByColumn (view w) !! c) as [[|first others]|] eqn:Hb.
  - exists [], w. unfold render, renderColumn. rewrite Hb. simpl.
    split; [by destruct w|]. split; [by destruct w|done].
  - set (sorted := sort_by (byVotes (view w)) (first :: others)).
    set (m' := set_ticketsByColumn (<[c := sorted]> (ticketsByColumn (view w)))
                 (view w)).
    exists sorted, (set_view m' w). split_and!.
    + unfold render, renderColumn. by rewrite Hb.
    + unfold render. simpl. rewrite (renderColumn_sorted_fixed m' c sorted).
      * done.
      * subst m'. simpl. by rewrite lookup_insert_eq.
      * apply (sort_byVotes_sorted (view w)).
    + intros Hsync c'. simpl. pose proof (Hsync c') as Hc'.
      destruct (decide (c = c')) as [<-|Hne].
      * rewrite lookup_insert_eq. rewrite Hb in Hc'.
        etrans; [|exact Hc']. apply (sort_by_perm (byVotes (view w))).
      * by rewrite lookup_insert_ne.
  - exists [], w. unfold render, renderColumn. rewrite Hb. simpl.
    split; [by destruct w|]. split; [by destruct w|done].
Qed.

(** ** Edit sessions: edges and compositions *)

(** X15. For a ticket whose column has no bucket in the view, [removeTicket]
    throws before anything is sent or changed, and so does a [saveEdit] that
    has a change to save: the session stays open, the world is as it was. *)
Theorem write_without_bucket_throws (w : World) (ticket : Ticket.t) :
  ticketsByColumn (view w) !! Ticket.column ticket = None →
  removeTicket ticket w = (Thrown TypeError, w) ∧
  (truthy_opt (editingTicketId (view w)) = true →
   editingTitle (view w) ≠ Ticket.title ticket
     ∨ editingContent (view w) ≠ Some (or_else (Ticket.content ticket) "") →
   saveEdit ticket w = (Thrown TypeError, w)).
Proof.
  intros Hb. split.
  - unfold removeTicket, bind. by rewrite optimisticRemove_no_bucket.
  - intros Hactive Hchanged.
    unfold saveEdit, bind at 1, read. rewrite Hactive. simpl.
    rewrite decide_True by done.
    unfold bind at 1, optimisticUpdate, bind at 1, read. by rewrite Hb.
Qed.

Lemma write_without_bucket_throws_witness :
  removeTicket stray_idea (retro_world []) = (Thrown TypeError, retro_world []).
Proof.
  destruct (write_without_bucket_throws (retro_world []) stray_idea) as [Hremove _];
    [reflexivity|exact Hremove].
Defined.

Lemma saveEdit_clears (w : World) (ticket : Ticket.t) :
  truthy_opt (editingTicketId (view w)) = true →
  editingTitle (view w) = Ticket.title ticket →
  editingContent (view w) = Some (or_else (Ticket.content ticket) "") →
  saveEdit ticket w = (Returned tt, set_view (set_editingTicketId None (view w)) w).
Proof.
  intros Hactive Htitle Hcontent.
  unfold saveEdit, bind, read. rewrite Hactive. simpl.
  rewrite decide_False; [done|]. intros [Hne|Hne]; congruence.
Qed.

(** X16. Opening a ticket that is not being edited and saving at once (a
    double-click followed by focus leaving, nothing typed) sends nothing:
    the session is closed again, buckets, votes, error flag, store, log and
    network are as before.  The ticket's id must be a non-empty string. *)
Theorem startEdit_then_saveEdit (w : World) (ticket : Ticket.t) :
  Ticket.id ticket ≠ "" →
  ¬ isEditing (view w) ticket →
  ∃ w',
    saveEdit ticket (set_view (startEdit ticket (view w)) w) = (Returned tt, w') ∧
    editingTicketId (view w') = None ∧
    ticketsByColumn (view w') = ticketsByColumn (view w) ∧
    votes (view w') = votes (view w) ∧
    error (view w') = error (view w) ∧
    db w' = db w ∧ log w' = log w ∧ network w' = network w.
Proof.
  intros Hid Hnot. apply truthy_spec in Hid.
  eexists. split.
  - apply saveEdit_clears; unfold startEdit; simpl;
      rewrite decide_False by done; done.
  - unfold startEdit. rewrite decide_False by done. done.
Qed.

(** Even with the network down. *)
Lemma startEdit_then_saveEdit_witness :
  ∃ w', saveEdit pairing untouched_edit = (Returned tt, w') ∧
        log w' = [] ∧ editingTicketId (view w') = None.
Proof.
  destruct (startEdit_then_saveEdit (retro_world [Some "offline"]) pairing)
    as (w' & Hrun & Hid & _ & _ & _ & _ & Hlog & _).
  - discriminate.
  - discriminate.
  - exists w'. done.
Defined.

(** X17. Escape ends the session without any request and without touching
    buckets or store, whatever was typed; opening the same ticket again
    starts from the ticket's own title and content, so the typed text is
    lost. *)
Theorem escape_then_reopen (w : World) (shiftKey : bool) (ticket : Ticket.t) :
  ∃ w',
    handleEditKeydown "Escape" shiftKey ticket w = (Returned tt, w') ∧
    log w' = log w ∧ db w' = db w ∧
    ticketsByColumn (view w') = ticketsByColumn (view w) ∧
    editingTicketId (view w') = None ∧
    isEditing (startEdit ticket (view w')) ticket ∧
    editingTitle (startEdit ticket (view w')) = Ticket.title ticket ∧
    editingContent (startEdit ticket (view w'))
      = Some (or_else (Ticket.content ticket) "").
Proof.
  eexists. split; [reflexivity|]. done.
Qed.



(** ** Failed writes, continued *)


(** X20. When the delete fails and the reload that follows goes through, the
    hosted rows being groupable, [removeTicket] returns with the buckets
    equal to the hosted rows partitioned by column, so the optimistically
    removed card is back if it is still hosted, and with the error flag
    holding the delete's message; the requests were the delete and one read,
    the store is untouched. *)
Theorem removeTicket_failure_restores (w : World) (ticket : Ticket.t)
    (bucket : list Ticket.t) (msg : string) (rest : list (option string)) :
  ticketsByColumn (view w) !! Ticket.column ticket = Some bucket →
  network w = Some msg :: rest →
  goes_through rest →
  groupable (tickets_table (db w)) →
  ∃ w',
    removeTicket ticket w = (Returned tt, w') ∧
    ticketsByColumn (view w') = authoritative (db w) ∧
    shows_hosted w' ∧
    error (view w') = Some msg ∧
    db w' = db w ∧
    log w' = log w ++ [DeleteTicket (Ticket.id ticket); SelectTickets].
Proof.
  intros Hbucket Hnet Hrest Hplain.
  assert (∃ w1, optimisticRemove ticket w = (Returned tt, w1)) as (w1 & Hstep).
  { unfold optimisticRemove, bind, read. rewrite Hbucket. by eexists. }
  rewrite (removeTicket_failure w w1 ticket msg rest Hstep Hnet).
  match goal with |- context [refreshTickets ?x] =>
    destruct (refreshTickets_goes_through x) as (w' & Hrun & Hview & Hdb & _ & Hlog);
      [done|done|] end.
  exists w'. simpl in *. rewrite Hrun, Hview, Hdb, Hlog, <- app_assoc.
  split_and!; try done.
  intros c. rewrite Hview, Hdb. simpl. apply authoritative_bucket.
Qed.

Lemma removeTicket_failure_restores_witness :
  ∃ w', removeTicket pairing (retro_world [Some "delete failed"]) = (Returned tt, w') ∧
        ticketsByColumn (view w') !! "Good" = Some [pairing; demo_day] ∧
        error (view w') = Some "delete failed".
Proof.
  destruct (removeTicket_failure_restores (retro_world [Some "delete failed"]) pairing
              [pairing; demo_day] "delete failed" [])
    as (w' & Hrun & Hview & _ & Herr & _).
  - reflexivity.
  - reflexivity.
  - exact I.
  - repeat constructor.
  - exists w'. rewrite Hview. done.
Defined.

(** ** The store module, continued *)

(** X22. [refreshTickets] of the store module always returns, with [loading]
    false, after exactly one read, and never installs what it read:
    [tickets], [ticketsByColumn] and the edit session are as before, the
    hosted rows are untouched, and the error store is always set.  When the
    read goes through and the hosted rows are groupable, it holds what the
    [catch] makes of the error of [data.forEach]; when the read fails, what
    it makes of the read's error. *)
Theorem store_refreshTickets_never_installs (instanceofError : Exn → bool)
    (s : TicketStore.Store) :
  ∃ s',
    TicketStore.refreshTickets instanceofError s = (Returned tt, s') ∧
    TicketStore.tickets (TicketStore.cells s') = TicketStore.tickets (TicketStore.cells s) ∧
    TicketStore.ticketsByColumn (TicketStore.cells s')
      = TicketStore.ticketsByColumn (TicketStore.cells s) ∧
    TicketStore.editingTicketId (TicketStore.cells s')
      = TicketStore.editingTicketId (TicketStore.cells s) ∧
    TicketStore.loading (TicketStore.cells s') = false ∧
    is_Some (TicketStore.error (TicketStore.cells s')) ∧
    db (TicketStore.outside s') = db (TicketStore.outside s) ∧
    log (TicketStore.outside s') = log (TicketStore.outside s) ++ [SelectTickets] ∧
    (goes_through (network (TicketStore.outside s)) →
     groupable (tickets_table (db (TicketStore.outside s))) →
       TicketStore.error (TicketStore.cells s')
         = Some (if instanceofError (not_a_function "data.forEach")
                 then message (not_a_function "data.forEach")
                 else "Failed to load tickets.")) ∧
    (∀ msg rest, network (TicketStore.outside s) = Some msg :: rest →
       TicketStore.error (TicketStore.cells s')
         = Some (if instanceofError (mkExn msg) then msg else "Failed to load tickets.")).
Proof.
  destruct (store_refreshTickets_run instanceofError s)
    as (e & s' & Hrun & Hcells & _ & Hdb & Hlog & _ & Hfail & Hok).
  exists s'. rewrite Hcells. simpl. split_and!; try done.
  - intros Hnet Hplain. rewrite (Hok Hnet). by rewrite decide_True.
  - intros msg rest Hnet. by rewrite (Hfail msg rest Hnet).
Qed.

(** X23. [startEdit] of the store module behaves as the page's: on the row
    being edited it changes nothing; on another row it moves the session
    there and takes title and content ([content || '']) from that row,
    leaving the other stores alone.  [cancelEdit] only ends the session. *)
Theorem store_startEdit_single_session (c : TicketStore.Cells) (A B : TicketStore.Row) :
  (TicketStore.editingTicketId c = Some (TicketStore.id A) → TicketStore.startEdit A c = c) ∧
  (TicketStore.id B ≠ TicketStore.id A →
   TicketStore.editingTicketId c = Some (TicketStore.id A) →
     let c' := TicketStore.startEdit B c in
     TicketStore.editingTicketId c' = Some (TicketStore.id B) ∧
     TicketStore.editingTicketId c' ≠ Some (TicketStore.id A) ∧
     TicketStore.editingTitle c' = TicketStore.title B ∧
     TicketStore.editingContent c' = or_else (TicketStore.content B) "" ∧
     TicketStore.tickets c' = TicketStore.tickets c ∧
     TicketStore.ticketsByColumn c' = TicketStore.ticketsByColumn c ∧
     TicketStore.loading c' = TicketStore.loading c ∧
     TicketStore.error c' = TicketStore.error c) ∧
  TicketStore.cancelEdit c = TicketStore.set_editingTicketId None c.
Proof.
  split_and!.
  - intros HA. unfold TicketStore.startEdit. by rewrite decide_True.
  - intros Hne HA. unfold TicketStore.startEdit.
    rewrite decide_False by (rewrite HA; congruence). simpl.
    split_and!; try done. congruence.
  - done.
Qed.

(** X24. [removeTicket] of the store module, for a row whose column has a
    bucket: it always returns, and the bucket is left without the rows of
    that id, other buckets and [tickets] being as before, whether the delete
    went through or not.  When it goes through, the hosted rows of that id
    are gone and nothing else is sent.  When it fails, the hosted rows stay,
    a reload's read follows, and the removed row is not put back. *)
Theorem store_removeTicket_outcomes (instanceofError : Exn → bool)
    (s : TicketStore.Store) (ticket : TicketStore.Row) (bucket : list TicketStore.Row) :
  TicketStore.ticketsByColumn (TicketStore.cells s) !! TicketStore.column ticket
    = Some bucket →
  ∃ s',
    TicketStore.removeTicket instanceofError ticket s = (Returned tt, s') ∧
    TicketStore.ticketsByColumn (TicketStore.cells s')
      = <[TicketStore.column ticket :=
            filter (λ t, TicketStore.id t ≠ TicketStore.id ticket) bucket]>
          (TicketStore.ticketsByColumn (TicketStore.cells s)) ∧
    TicketStore.tickets (TicketStore.cells s') = TicketStore.tickets (TicketStore.cells s) ∧
    (goes_through (network (TicketStore.outside s)) →
       tickets_table (db (TicketStore.outside s'))
         = filter (λ r, Ticket.id r ≠ TicketStore.id ticket)
                  (tickets_table (db (TicketStore.outside s))) ∧
       TicketStore.error (TicketStore.cells s') = TicketStore.error (TicketStore.cells s) ∧
       log (TicketStore.outside s')
         = log (TicketStore.outside s) ++ [DeleteTicket (TicketStore.id ticket)]) ∧
    (∀ msg rest, network (TicketStore.outside s) = Some msg :: rest →
       db (TicketStore.outside s') = db (TicketStore.outside s) ∧
       is_Some (TicketStore.error (TicketStore.cells s')) ∧
       log (TicketStore.outside s')
         = log (TicketStore.outside s)
           ++ [DeleteTicket (TicketStore.id ticket); SelectTickets]).
Proof.
  intros Hbucket.
  unfold TicketStore.removeTicket, TicketStore.attempt, TicketStore.and_then at 1,
    TicketStore.get.
  rewrite Hbucket.
  unfold TicketStore.and_then at 1, TicketStore.modify at 1.
  unfold TicketStore.and_then at 1, TicketStore.lift, Supabase.delete_ticket. simpl.
  destruct (decide (goes_through (network (TicketStore.outside s)))) as [Hok|Hko].
  - rewrite request_goes_through by done. simpl.
    eexists. split; [reflexivity|]. simpl. split_and!; try done.
    intros msg rest Hnet. by rewrite Hnet in Hok.
  - destruct (network (TicketStore.outside s)) as [|[msg|] rest] eqn:Hnet;
      simpl in Hko; try done.
    rewrite (request_fails _ _ _ msg rest) by done. simpl.
    unfold TicketStore.and_then at 1, TicketStore.modify at 1. simpl.
    match goal with |- context [TicketStore.refreshTickets _ ?x] =>
      destruct (store_refreshTickets_run instanceofError x)
        as (e & s' & Hrun & Hcells & _ & Hdb & Hlog & _)
    end.
    rewrite Hrun. exists s'. rewrite Hcells, Hdb, Hlog. simpl.
    split_and!; try done.
    intros msg' rest' _. split_and!; try done. by rewrite <- app_assoc.
Qed.

(** The new row of the sample is removed again while the network is down:
    the row is gone from its bucket and stays gone. *)
Lemma store_removeTicket_outcomes_witness :
  ∃ s', TicketStore.removeTicket any_Error draft drafting_store = (Returned tt, s') ∧
        TicketStore.ticketsByColumn (TicketStore.cells s') !! "Ideas" = Some [].
Proof.
  destruct (store_removeTicket_outcomes any_Error drafting_store draft [draft])
    as (s' & Hrun & Hbuckets & _); [reflexivity|].
  exists s'. split; [exact Hrun|]. rewrite Hbuckets. reflexivity.
Defined.

(** X25. [addTicket] of the store module for a column named like an
    inherited property, the stores holding no bucket of that name: the
    spread of the inherited value throws before anything is shown or
    inserted; the [catch] sets the error store and reloads, so the read is
    the only request and the buckets are as before. *)
Theorem store_addTicket_inherited_column (instanceofError : Exn → bool)
    (order_default : Z) (s : TicketStore.Store) (columnTitle : string)
    (title content : option string) :
  inherited columnTitle = true →
  TicketStore.ticketsByColumn (TicketStore.cells s) !! columnTitle = None →
  ∃ s',
    TicketStore.addTicket instanceofError order_default columnTitle title content s
      = (Returned tt, s') ∧
    TicketStore.ticketsByColumn (TicketStore.cells s')
      = TicketStore.ticketsByColumn (TicketStore.cells s) ∧
    is_Some (TicketStore.error (TicketStore.cells s')) ∧
    db (TicketStore.outside s') = db (TicketStore.outside s) ∧
    log (TicketStore.outside s') = log (TicketStore.outside s) ++ [SelectTickets].
Proof.
  intros Hin Hnone.
  unfold TicketStore.addTicket, TicketStore.attempt, TicketStore.and_then at 1,
    TicketStore.now at 1.
  unfold TicketStore.and_then at 1, TicketStore.get. simpl.
  rewrite Hnone, Hin.
  unfold TicketStore.and_then at 1, TicketStore.fail at 1.
  unfold TicketStore.and_then at 1, TicketStore.modify at 1.
  match goal with |- context [TicketStore.refreshTickets _ ?x] =>
    destruct (store_refreshTickets_run instanceofError x)
      as (e & s' & Hrun & Hcells & _ & Hdb & Hlog & _)
  end.
  rewrite Hrun. exists s'. rewrite Hcells, Hdb, Hlog. simpl. done.
Qed.

Lemma store_addTicket_inherited_column_witness :
  ∃ s', TicketStore.addTicket any_Error 0 "constructor" None None (fresh_store [])
          = (Returned tt, s') ∧
        log (TicketStore.outside s') = [SelectTickets].
Proof.
  destruct (store_addTicket_inherited_column any_Error 0 (fresh_store [])
              "constructor" None None) as (s' & Hrun & _ & _ & _ & Hlog);
    [reflexivity|reflexivity|].
  exists s'. split; [exact Hrun|exact Hlog].
Defined.
